(** * Image Region Analyzer: region means and reference comparison

    A shallow embedding of [src/image_analyzer.py] (class [ImageAnalyzer]) and
    the properties of its region store and of [update_averages].

    Modelling conventions.
    - Canvas coordinates are the floats returned by [canvasx]/[canvasy]; they
      are rationals here, and [int(...)] is truncation toward zero.
    - A numpy float is either NaN or a finite value. In the first model
      finite values are exact rationals; module [Refined] computes the same
      program in IEEE binary64.
    - The image array is a list of rows, a row a list of pixels, a pixel the
      list of its integer channel values (one value for a 2-D array).
    - A label of the results frame is kept as the numbers its text formats,
      a canvas text as its caption.
    - Tk callbacks that raise leave the object in the state reached so far and
      the main loop goes on; an outcome therefore always carries a state.
    - In the first model every image that opens decodes; module [Refined]
      has the files that open and cannot be decoded.
    - Widget layout, [self.photo] and [canvas.config] have no effect on the
      store or on the analysis and are left out. *)

From Stdlib Require Import String.
From Stdlib Require Import ZArith QArith Qabs Qminmax List Bool Lia Lqa.
From Stdlib Require Import Floats.SpecFloat.
Import ListNotations.

Local Open Scope Z_scope.

(** ** numpy floats *)

Module Float.

Inductive npfloat : Type :=
| NaN
| Fin (q : Q).

(** [a - b] *)
Definition sub (a b : npfloat) : npfloat :=
  match a, b with
  | Fin x, Fin y => Fin (x - y)%Q
  | _, _ => NaN
  end.

(** [abs(a)] *)
Definition abs (a : npfloat) : npfloat :=
  match a with
  | Fin x => Fin (Qabs x)
  | NaN => NaN
  end.

(** [a < b]; every comparison with NaN is false. *)
Definition ltb (a b : npfloat) : bool :=
  match a, b with
  | Fin x, Fin y => match (x ?= y)%Q with Lt => true | _ => false end
  | _, _ => false
  end.

Definition of_Z (z : Z) : npfloat := Fin (inject_Z z).

End Float.

Import Float.

(** ** Python and numpy primitives *)

(** [int(x)] on a float: truncation toward zero. *)
Definition py_int (x : Q) : Z := Z.quot (Qnum x) (Zpos (Qden x)).

(** Start or stop of a slice [l[lo:hi]] against a length, as
    [slice.indices] does for step 1: a negative index counts from the end. *)
Definition slice_index (len i : Z) : Z :=
  if i <? 0 then Z.max 0 (i + len) else Z.min i len.

(** [l[lo:hi]] *)
Definition py_slice {A : Type} (l : list A) (lo hi : Z) : list A :=
  let len := Z.of_nat (length l) in
  let start := slice_index len lo in
  let stop := slice_index len hi in
  firstn (Z.to_nat (stop - start)) (skipn (Z.to_nat start) l).

Definition pixel : Type := list Z.
Definition ndarray : Type := list (list pixel).

(** [a.shape[0]] and [a.shape[1]] *)
Definition shape0 (a : ndarray) : Z := Z.of_nat (length a).
Definition shape1 (a : ndarray) : Z := Z.of_nat (length (hd [] a)).

(** Arrays made by numpy are rectangular: every row has [shape1] pixels. *)
Definition rectangular (a : ndarray) : Prop :=
  Forall (fun row => length row = length (hd [] a)) a.

(** [a[y1:y2, x1:x2]] *)
Definition slice2 (a : ndarray) (y1 y2 x1 x2 : Z) : ndarray :=
  map (fun row => py_slice row x1 x2) (py_slice a y1 y2).

(** All values of the array, in row-major order. *)
Definition ravel (a : ndarray) : list Z := concat (concat a).

Definition sumZ (l : list Z) : Z := fold_right Z.add 0 l.

(** [np.mean(a)]: the mean of the flattened array, NaN for an empty one
    (numpy warns, it does not raise). *)
Definition np_mean (a : ndarray) : npfloat :=
  match ravel a with
  | [] => NaN
  | v :: vs => Fin (sumZ (v :: vs) # Pos.of_nat (length (v :: vs)))
  end.

(** ** The Tk canvas *)

(** The three captions the program writes on the canvas:
    the reference caption (lines 107-111), "svobodno" (free, line 184) and
    "zanyato" (occupied, line 186). *)
Inductive caption : Type :=
| RefCaption
| Svobodno
| Zanyato.

Inductive item : Type :=
| image_item (x y : Z)
| rectangle_item (x1 y1 x2 y2 : Q) (outline : string)
| text_item (x y : Q) (text : caption) (fill : string).

(** Item ids are handed out by a counter that starts at 1 and never reuses
    an id. *)
Record Canvas : Type := mkCanvas {
  next_id : positive;
  items : list (positive * item)
}.

Definition canvas_create (c : Canvas) (it : item) : positive * Canvas :=
  (next_id c,
   {| next_id := Pos.succ (next_id c); items := items c ++ [(next_id c, it)] |}).

Definition canvas_delete (c : Canvas) (id : positive) : Canvas :=
  {| next_id := next_id c;
     items := filter (fun p => negb (Pos.eqb (fst p) id)) (items c) |}.

(** [canvas.coords(id, x1, y1, x2, y2)] on a rectangle *)
Definition canvas_coords (c : Canvas) (id : positive) (x1 y1 x2 y2 : Q) : Canvas :=
  {| next_id := next_id c;
     items := map (fun p =>
                if Pos.eqb (fst p) id then
                  match snd p with
                  | rectangle_item _ _ _ _ o => (fst p, rectangle_item x1 y1 x2 y2 o)
                  | _ => p
                  end
                else p) (items c) |}.

(** [canvas.delete("text")] deletes the items tagged "text"; the program
    never tags an item, so nothing is deleted. *)
Definition canvas_delete_tag (c : Canvas) (tag : string) : Canvas := c.

(** [canvasx]/[canvasy] of an unscrolled canvas: the window coordinate as a
    float. *)
Definition canvasx (screenx : Z) : Q := inject_Z screenx.
Definition canvasy (screeny : Z) : Q := inject_Z screeny.

(** ** The application object *)

(** An entry of [self.rectangles]: (x1, y1, x2, y2, color, canvas_id). *)
Record rect : Type := mkrect {
  r_x1 : Q;
  r_y1 : Q;
  r_x2 : Q;
  r_y2 : Q;
  r_color : string;
  r_id : positive
}.

(** A label packed into [results_frame]; the numbers are the ones the
    f-string formats. *)
Inductive label : Type :=
| ReferenceLabel (avg : npfloat)
| RegionLabel (n : nat) (color : string) (avg : npfloat) (diff : option npfloat).

Definition Image : Type := ndarray.

(** [np.array(image)] *)
Definition np_array (im : Image) : ndarray := im.

Record app : Type := mkapp {
  image : option Image;
  rectangles : list rect;
  current_rect : option positive;
  start_x : option Q;
  start_y : option Q;
  current_color_index : nat;
  reference_rect_id : option positive;
  reference_avg : option npfloat;
  canvas : Canvas;
  results_frame : list label
}.

Definition colors : list string :=
  ["red"; "blue"; "green"; "yellow"; "purple"]%string.

Definition set_image (v : option Image) (s : app) : app :=
  mkapp v (rectangles s) (current_rect s) (start_x s) (start_y s)
        (current_color_index s) (reference_rect_id s) (reference_avg s)
        (canvas s) (results_frame s).

Definition set_rectangles (v : list rect) (s : app) : app :=
  mkapp (image s) v (current_rect s) (start_x s) (start_y s)
        (current_color_index s) (reference_rect_id s) (reference_avg s)
        (canvas s) (results_frame s).

Definition set_current_rect (v : option positive) (s : app) : app :=
  mkapp (image s) (rectangles s) v (start_x s) (start_y s)
        (current_color_index s) (reference_rect_id s) (reference_avg s)
        (canvas s) (results_frame s).

Definition set_start (vx vy : option Q) (s : app) : app :=
  mkapp (image s) (rectangles s) (current_rect s) vx vy
        (current_color_index s) (reference_rect_id s) (reference_avg s)
        (canvas s) (results_frame s).

Definition set_current_color_index (v : nat) (s : app) : app :=
  mkapp (image s) (rectangles s) (current_rect s) (start_x s) (start_y s)
        v (reference_rect_id s) (reference_avg s)
        (canvas s) (results_frame s).

Definition set_reference_rect_id (v : option positive) (s : app) : app :=
  mkapp (image s) (rectangles s) (current_rect s) (start_x s) (start_y s)
        (current_color_index s) v (reference_avg s)
        (canvas s) (results_frame s).

Definition set_reference_avg (v : option npfloat) (s : app) : app :=
  mkapp (image s) (rectangles s) (current_rect s) (start_x s) (start_y s)
        (current_color_index s) (reference_rect_id s) v
        (canvas s) (results_frame s).

Definition set_canvas (v : Canvas) (s : app) : app :=
  mkapp (image s) (rectangles s) (current_rect s) (start_x s) (start_y s)
        (current_color_index s) (reference_rect_id s) (reference_avg s)
        v (results_frame s).

Definition set_results_frame (v : list label) (s : app) : app :=
  mkapp (image s) (rectangles s) (current_rect s) (start_x s) (start_y s)
        (current_color_index s) (reference_rect_id s) (reference_avg s)
        (canvas s) v.

(** [canvas.create_text(x, y, text=..., fill=...)]; the id is dropped. *)
Definition create_text (x y : Q) (t : caption) (fill : string) (s : app) : app :=
  set_canvas (snd (canvas_create (canvas s) (text_item x y t fill))) s.

(** [ttk.Label(self.results_frame, ...).pack()] *)
Definition pack_label (l : label) (s : app) : app :=
  set_results_frame (results_frame s ++ [l]) s.

(** ** [update_averages] (lines 136-190) *)

(** [canvas_id == self.reference_rect_id] *)
Definition is_reference_id (id : positive) (ref : option positive) : bool :=
  match ref with
  | Some r => Pos.eqb id r
  | None => false
  end.

(** [enumerate(l)] *)
Definition enumerate {A : Type} (l : list A) : list (nat * A) :=
  combine (seq 0 (length l)) l.

(** Lines 149-161: the reference average, when the reference rectangle is
    found in the store. *)
Definition reference_block (img_array : ndarray) (s : app) : app :=
  match reference_rect_id s with
  | Some ref_id =>
      match find (fun r => Pos.eqb (r_id r) ref_id) (rectangles s) with
      | Some ref_rect =>
          let x1 := Z.max 0 (py_int (r_x1 ref_rect)) in
          let y1 := Z.max 0 (py_int (r_y1 ref_rect)) in
          let x2 := Z.min (shape1 img_array) (py_int (r_x2 ref_rect)) in
          let y2 := Z.min (shape0 img_array) (py_int (r_y2 ref_rect)) in
          let ref_region := slice2 img_array y1 y2 x1 x2 in
          let avg := np_mean ref_region in
          pack_label (ReferenceLabel avg) (set_reference_avg (Some avg) s)
      | None => s
      end
  | None => s
  end.

(** Lines 164-190: one iteration of the loop over [enumerate(self.rectangles)]. *)
Definition region_iteration (img_array : ndarray) (s : app) (ir : nat * rect) : app :=
  let i := fst ir in
  let r := snd ir in
  if is_reference_id (r_id r) (reference_rect_id s) then s
  else
    let x1 := Z.max 0 (py_int (r_x1 r)) in
    let y1 := Z.max 0 (py_int (r_y1 r)) in
    let x2 := Z.min (shape1 img_array) (py_int (r_x2 r)) in
    let y2 := Z.min (shape0 img_array) (py_int (r_y2 r)) in
    let region := slice2 img_array y1 y2 x1 x2 in
    let avg_value := np_mean region in
    match reference_avg s with
    | Some ref =>
        let diff := Float.abs (Float.sub avg_value ref) in
        let s1 :=
          if Float.ltb diff (Float.of_Z 3)
          then create_text (inject_Z x1) (inject_Z (y1 - 10)) Svobodno "green" s
          else create_text (inject_Z x1) (inject_Z (y1 - 10)) Zanyato "red" s in
        pack_label (RegionLabel (i + 1) (r_color r) avg_value (Some diff)) s1
    | None =>
        pack_label (RegionLabel (i + 1) (r_color r) avg_value None) s
    end.

Definition update_averages (s : app) : app :=
  let s0 := set_results_frame [] s in
  match image s0, rectangles s0 with
  | None, _ => s0
  | Some _, [] => s0
  | Some im, _ :: _ =>
      let img_array := np_array im in
      let s1 := reference_block img_array s0 in
      fold_left (region_iteration img_array) (enumerate (rectangles s1)) s1
  end.

(** ** [clear_rectangles] (lines 125-134) *)

Definition clear_rectangles (s : app) : app :=
  let c := fold_left (fun c r => canvas_delete c (r_id r)) (rectangles s) (canvas s) in
  let s1 := set_canvas c s in
  let s2 := set_rectangles [] s1 in
  let s3 := set_reference_rect_id None s2 in
  let s4 := set_reference_avg None s3 in
  let s5 := update_averages s4 in
  set_canvas (canvas_delete_tag (canvas s5) "text") s5.

(** ** Callbacks that can raise: a state and exception monad *)

Inductive exn : Type :=
| TypeError
| IndexError
| TclError
| OSError.

Inductive outcome (A : Type) : Type :=
| Ok (a : A) (s : app)
| Raise (e : exn) (s : app).

Arguments Ok {A} a s.
Arguments Raise {A} e s.

Definition M (A : Type) : Type := app -> outcome A.

Definition ret {A : Type} (a : A) : M A := fun s => Ok a s.

Definition bind {A B : Type} (m : M A) (k : A -> M B) : M B :=
  fun s =>
    match m s with
    | Ok a s' => k a s'
    | Raise e s' => Raise e s'
    end.

Definition get : M app := fun s => Ok s s.

Definition modify (f : app -> app) : M unit := fun s => Ok tt (f s).

Definition raise {A : Type} (e : exn) : M A := fun s => Raise e s.

(** A value that Python needs to be a number: [None] gives the exception. *)
Definition need {A : Type} (e : exn) (o : option A) : M A :=
  match o with
  | Some a => ret a
  | None => raise e
  end.

Notation "x <- m ;; k" := (bind m (fun x => k))
  (at level 61, m at next level, right associativity).
Notation "m ;;; k" := (bind m (fun _ => k))
  (at level 61, right associativity).

(** The state a callback leaves behind, whether it returned or raised. *)
Definition state_of {A : Type} (o : outcome A) : app :=
  match o with
  | Ok _ s => s
  | Raise _ s => s
  end.

(** [self.colors[self.current_color_index]] *)
Definition current_color : M string :=
  s <- get ;;
  need IndexError (nth_error colors (current_color_index s)).

(** [self.canvas.create_rectangle(...)], giving the new id. *)
Definition create_rectangle (x1 y1 x2 y2 : Q) (outline : string) : M positive :=
  s <- get ;;
  let (id, c) := canvas_create (canvas s) (rectangle_item x1 y1 x2 y2 outline) in
  modify (set_canvas c) ;;;
  ret id.

(** ** [load_image] (lines 65-75) *)

(** What the file dialog and [Image.open] give: no file chosen, a file that
    cannot be opened as an image, or an image. *)
Inductive chosen_file : Type :=
| Cancelled
| Unreadable
| Readable (im : Image).

Definition load_image (f : chosen_file) : M unit :=
  match f with
  | Cancelled => ret tt
  | Unreadable => raise OSError
  | Readable im =>
      modify (set_image (Some im)) ;;;
      modify (fun s => set_canvas (snd (canvas_create (canvas s) (image_item 0 0))) s) ;;;
      modify clear_rectangles
  end.

(** ** Mouse callbacks (lines 77-123) *)

Definition on_press (event_x event_y : Z) : M unit :=
  modify (set_start (Some (canvasx event_x)) (Some (canvasy event_y))) ;;;
  s <- get ;;
  match current_rect s with
  | Some cur => modify (fun s => set_canvas (canvas_delete (canvas s) cur) s)
  | None => ret tt
  end ;;;
  color <- current_color ;;
  id <- create_rectangle (canvasx event_x) (canvasy event_y)
                         (canvasx event_x) (canvasy event_y) color ;;
  modify (set_current_rect (Some id)).

Definition on_drag (event_x event_y : Z) : M unit :=
  s <- get ;;
  match current_rect s with
  | Some cur =>
      let cur_x := canvasx event_x in
      let cur_y := canvasy event_y in
      sx <- need TclError (start_x s) ;;
      sy <- need TclError (start_y s) ;;
      modify (fun s => set_canvas (canvas_coords (canvas s) cur sx sy cur_x cur_y) s)
  | None => ret tt
  end.

Definition on_release (event_x event_y : Z) : M unit :=
  s <- get ;;
  match current_rect s with
  | Some cur =>
      let end_x := canvasx event_x in
      let end_y := canvasy event_y in
      match rectangles s with
      | [] =>
          modify (set_reference_rect_id (Some cur)) ;;;
          sx <- need TypeError (start_x s) ;;
          sy <- need TypeError (start_y s) ;;
          let x1 := Qmin sx end_x in
          let y1 := Qmin sy end_y in
          modify (create_text x1 (y1 - inject_Z 10)%Q RefCaption "red")
      | _ :: _ => ret tt
      end ;;;
      sx <- need TypeError (start_x s) ;;
      sy <- need TypeError (start_y s) ;;
      color <- current_color ;;
      modify (fun s =>
        set_rectangles
          (rectangles s ++
             [mkrect (Qmin sx end_x) (Qmin sy end_y)
                     (Qmax sx end_x) (Qmax sy end_y) color cur]) s) ;;;
      modify (set_current_rect None) ;;;
      modify update_averages ;;;
      modify (fun s =>
        set_current_color_index
          ((current_color_index s + 1) mod length colors)%nat s)
  | None => ret tt
  end.

(** ** The program as a transition system *)

(** [__init__] (lines 18-63): an empty canvas and an empty store. *)
Definition init : app :=
  {| image := None;
     rectangles := [];
     current_rect := None;
     start_x := None;
     start_y := None;
     current_color_index := 0;
     reference_rect_id := None;
     reference_avg := None;
     canvas := {| next_id := 1; items := [] |};
     results_frame := [] |}.

Inductive event : Type :=
| LoadImage (f : chosen_file)
| ButtonPress (x y : Z)
| Motion (x y : Z)
| ButtonRelease (x y : Z)
| ClearRectangles.

Definition handle (e : event) : M unit :=
  match e with
  | LoadImage f => load_image f
  | ButtonPress x y => on_press x y
  | Motion x y => on_drag x y
  | ButtonRelease x y => on_release x y
  | ClearRectangles => modify clear_rectangles
  end.

(** Running a list of events from a state; the main loop survives a raising
    callback. *)
Definition run (es : list event) (s : app) : app :=
  fold_left (fun s e => state_of (handle e s)) es s.

Inductive reachable : app -> Prop :=
| reach_init : reachable init
| reach_step s e : reachable s -> reachable (state_of (handle e s)).

(** ** The specification's vocabulary *)

(** §4.2 step 1, in the specification's words: the clamped bounds
    (x1', y1', x2', y2') of integer bounds against a W x H image. *)
Definition spec_clamp (W H : Z) (b : Z * Z * Z * Z) : Z * Z * Z * Z :=
  let '(x1, y1, x2, y2) := b in
  (Z.max 0 x1, Z.max 0 y1, Z.min W x2, Z.min H y2).

(** The integer pixel bounds of a stored region. *)
Definition bounds (r : rect) : Z * Z * Z * Z :=
  (py_int (r_x1 r), py_int (r_y1 r), py_int (r_x2 r), py_int (r_y2 r)).

(** §4.2 steps 2 and 3, in the specification's words: the mean of all pixel
    values of the clamped sub-grid. *)
Definition spec_mean (a : ndarray) (r : rect) : npfloat :=
  let '(x1, y1, x2, y2) := spec_clamp (shape1 a) (shape0 a) (bounds r) in
  np_mean (slice2 a y1 y2 x1 x2).

Inductive classification : Type :=
| MATCH
| MISMATCH.

(** The classification a canvas caption shows. *)
Definition shown (it : item) : option classification :=
  match it with
  | text_item _ _ Svobodno _ => Some MATCH
  | text_item _ _ Zanyato _ => Some MISMATCH
  | _ => None
  end.

(** ** Observations on states *)

(** The region that is the reference, if the store has it. *)
Definition reference_region (s : app) : option rect :=
  match reference_rect_id s with
  | Some ref_id => find (fun r => Pos.eqb (r_id r) ref_id) (rectangles s)
  | None => None
  end.

Definition is_reference (s : app) (r : rect) : bool :=
  is_reference_id (r_id r) (reference_rect_id s).

(** The regions the loop does not skip, with their positions in the store. *)
Definition non_reference (s : app) : list (nat * rect) :=
  filter (fun ir => negb (is_reference s (snd ir))) (enumerate (rectangles s)).

(** The labels of the non-reference regions, in display order. *)
Definition region_labels (s : app) : list label :=
  filter (fun l => match l with RegionLabel _ _ _ _ => true | _ => false end)
         (results_frame s).

(** The items on the canvas, in creation order, without their ids. *)
Definition drawn (s : app) : list item := map snd (items (canvas s)).

(** The items a callback added to the canvas. *)
Definition drawn_since (before after : app) : list item :=
  skipn (length (drawn before)) (drawn after).

(** The classifications shown on the canvas, in creation order. *)
Definition classifications (s : app) : list classification :=
  flat_map (fun it => match shown it with Some c => [c] | None => [] end) (drawn s).

(** The label and the marker of one non-reference region, from the clamped
    mean and the reference mean. *)
Definition region_label (a : ndarray) (ref : option npfloat) (ir : nat * rect) : label :=
  RegionLabel (fst ir + 1) (r_color (snd ir)) (spec_mean a (snd ir))
    (option_map (fun m => Float.abs (Float.sub (spec_mean a (snd ir)) m)) ref).

Definition region_marker (a : ndarray) (ref : npfloat) (ir : nat * rect) : item :=
  let '(x1, y1, _, _) := spec_clamp (shape1 a) (shape0 a) (bounds (snd ir)) in
  if Float.ltb (Float.abs (Float.sub (spec_mean a (snd ir)) ref)) (Float.of_Z 3)
  then text_item (inject_Z x1) (inject_Z (y1 - 10)) Svobodno "green"
  else text_item (inject_Z x1) (inject_Z (y1 - 10)) Zanyato "red".

(** A region as [on_release] stores it: integer-valued bounds, ordered. *)
Definition stored_ok (r : rect) : Prop :=
  exists x1 y1 x2 y2 : Z,
    r_x1 r = inject_Z x1 /\ r_y1 r = inject_Z y1 /\
    r_x2 r = inject_Z x2 /\ r_y2 r = inject_Z y2 /\
    x1 <= x2 /\ y1 <= y2.

(** The region covers the whole W x H image. *)
Definition covers (a : ndarray) (r : rect) : Prop :=
  let '(x1, y1, x2, y2) := bounds r in
  x1 <= 0 /\ y1 <= 0 /\ shape1 a <= x2 /\ shape0 a <= y2.

(** The invariant of the region store and of the draft rectangle. *)
Record store_inv (s : app) : Prop := {
  inv_ids_allocated :
    Forall (fun r => (r_id r < next_id (canvas s))%positive) (rectangles s);
  inv_ids_distinct : NoDup (map r_id (rectangles s));
  inv_draft :
    forall cur, current_rect s = Some cur ->
      (cur < next_id (canvas s))%positive /\
      ~ In cur (map r_id (rectangles s)) /\
      exists zx zy, start_x s = Some (inject_Z zx) /\ start_y s = Some (inject_Z zy);
  inv_reference :
    reference_rect_id s = option_map r_id (hd_error (rectangles s));
  inv_stored : Forall stored_ok (rectangles s);
  inv_color : (current_color_index s < length colors)%nat
}.

(** What [update_averages] leaves alone: everything but the labels, the
    reference mean and the canvas, whose id counter only grows. *)
Definition frame (s s' : app) : Prop :=
  image s' = image s /\
  rectangles s' = rectangles s /\
  current_rect s' = current_rect s /\
  start_x s' = start_x s /\
  start_y s' = start_y s /\
  current_color_index s' = current_color_index s /\
  reference_rect_id s' = reference_rect_id s /\
  (next_id (canvas s) <= next_id (canvas s'))%positive.

(** The entry [on_release] appends for a press at (px, py) and a release at
    (x, y). *)
Definition stored_region (px py x y : Z) (color : string) (cur : positive) : rect :=
  mkrect (inject_Z (Z.min px x)) (inject_Z (Z.min py y))
         (inject_Z (Z.max px x)) (inject_Z (Z.max py y)) color cur.

(** The mean a label shows. *)
Definition label_mean (l : label) : npfloat :=
  match l with
  | ReferenceLabel avg => avg
  | RegionLabel _ _ avg _ => avg
  end.

(** ** The scenarios of §8 of the specification *)

Definition scenario_row : list pixel := [[0]; [0]; [10]; [10]].

(** The 4 x 4 image [[0,0,10,10], ...]. *)
Definition scenario_image : Image :=
  [scenario_row; scenario_row; scenario_row; scenario_row].

(** The image loaded and the reference region (0,0,2,4) drawn. *)
Definition scenario_reference : list event :=
  [LoadImage (Readable scenario_image); ButtonPress 0 0; ButtonRelease 2 4].

(** A second region (2,0,4,4), dragged from its bottom right corner. *)
Definition scenario_mismatch : app :=
  run (scenario_reference ++ [ButtonPress 4 4; Motion 3 2; ButtonRelease 2 0]) init.

(** A second region equal to the reference. *)
Definition scenario_match : app :=
  run (scenario_reference ++ [ButtonPress 0 0; ButtonRelease 2 4]) init.

(** A second region (5,5,6,6), outside the image. *)
Definition scenario_outside : app :=
  run (scenario_reference ++ [ButtonPress 5 5; ButtonRelease 6 6]) init.

(** A second region (-10,0,-1,4), to the left of the image. *)
Definition scenario_left : app :=
  run (scenario_reference ++ [ButtonPress (-1) 4; ButtonRelease (-10) 0]) init.

(** One region (-1,-2,4,5) that covers the image. *)
Definition scenario_whole : app :=
  run [LoadImage (Readable scenario_image); ButtonPress 4 5; ButtonRelease (-1) (-2)] init.

(** Two regions drawn before any image is loaded. *)
Definition scenario_no_image : app :=
  run [ButtonPress 0 0; ButtonRelease 2 4; ButtonPress 1 1; ButtonRelease 3 3] init.

(** ** Further observations *)

(** The state [on_release] hands to [update_averages] (lines 100-121), for a
    draft [cur] started at (sx, sy) and the colour [color]. *)
Definition release_store (sx sy : Q) (event_x event_y : Z) (color : string)
           (cur : positive) (s : app) : app :=
  let end_x := canvasx event_x in
  let end_y := canvasy event_y in
  let s1 :=
    match rectangles s with
    | [] =>
        create_text (Qmin sx end_x) (Qmin sy end_y - inject_Z 10)%Q RefCaption "red"
                    (set_reference_rect_id (Some cur) s)
    | _ :: _ => s
    end in
  set_current_rect None
    (set_rectangles
       (rectangles s1 ++
          [mkrect (Qmin sx end_x) (Qmin sy end_y)
                  (Qmax sx end_x) (Qmax sy end_y) color cur]) s1).

(** The ids and outline colours of the rectangles on the canvas, in
    creation order. *)
Definition canvas_rectangles (c : Canvas) : list (positive * string) :=
  flat_map (fun p => match snd p with
                     | rectangle_item _ _ _ _ o => [(fst p, o)]
                     | _ => []
                     end) (items c).

Definition is_text (it : item) : bool :=
  match it with
  | text_item _ _ _ _ => true
  | _ => false
  end.

(** The captions and markers on the canvas, with their ids. *)
Definition canvas_texts (c : Canvas) : list (positive * item) :=
  filter (fun p => is_text (snd p)) (items c).

(** The rectangles the object knows of: the stored regions with their
    colours, then the draft with the current colour. *)
Definition store_rectangles (s : app) : list (positive * string) :=
  map (fun r => (r_id r, r_color r)) (rectangles s) ++
  match current_rect s with
  | Some cur => [(cur, nth (current_color_index s) colors ""%string)]
  | None => []
  end.

(** The ids on the canvas are distinct and below the counter. *)
Definition canvas_wf (c : Canvas) : Prop :=
  NoDup (map fst (items c)) /\
  Forall (fun p => (fst p < next_id c)%positive) (items c).

(** [n] colours of the cycle, from position [k]. *)
Definition color_run (k n : nat) : list string :=
  map (fun j => nth ((k + j) mod length colors) colors ""%string) (seq 0 n).

(** Every channel value of the array lies in [lo, hi]. *)
Definition pixels_within (lo hi : Z) (a : ndarray) : Prop :=
  Forall (Forall (Forall (fun v => lo <= v <= hi))) a.

(** The float is NaN or lies in [lo, hi]. *)
Definition float_within (lo hi : Q) (f : npfloat) : Prop :=
  match f with
  | NaN => True
  | Fin q => (lo <= q /\ q <= hi)%Q
  end.

(** The difference a label shows, if any. *)
Definition label_diff (l : label) : option npfloat :=
  match l with
  | ReferenceLabel _ => None
  | RegionLabel _ _ _ diff => diff
  end.

(** The panel and the reference mean are those of the current image and
    store: with an image and a first region [r0], the reference label for
    [r0] and then one label per other region, each with its difference;
    otherwise nothing. *)
Definition display_current (s : app) : Prop :=
  match image s, rectangles s with
  | Some im, r0 :: _ =>
      reference_avg s = Some (spec_mean im r0) /\
      results_frame s =
        ReferenceLabel (spec_mean im r0) ::
        map (region_label im (Some (spec_mean im r0))) (tl (enumerate (rectangles s)))
  | _, _ => reference_avg s = None /\ results_frame s = []
  end.

(** From [c] to [c'] only texts were added to the canvas. *)
Definition texts_added (c c' : Canvas) : Prop :=
  (canvas_wf c -> canvas_wf c') /\
  canvas_rectangles c' = canvas_rectangles c /\
  exists new, canvas_texts c' = canvas_texts c ++ new.

(** The canvas [on_press] draws the new draft on: the old draft, if any,
    is deleted first (lines 81-82). *)
Definition press_canvas (s : app) : Canvas :=
  match current_rect s with
  | Some cur => canvas_delete (canvas s) cur
  | None => canvas s
  end.

(** The canvas agrees with the object: its ids are distinct and its
    rectangles are those of the stored regions and of the draft. *)
Definition canvas_inv (s : app) : Prop :=
  canvas_wf (canvas s) /\ canvas_rectangles (canvas s) = store_rectangles s.

(** * The program with float64 arithmetic and lazy decoding

    The model above computes with exact rationals and takes every image that
    opens to decode. Module [Refined] is the same program with the two
    left-out behaviours written in:
    - numpy's means, differences and comparisons are IEEE binary64
      ([spec_float] at precision 53), so the branch [diff < 3] is taken as the
      code takes it;
    - [Image.open] is lazy: a file can open (line 71) and fail to decode, at
      [ImageTk.PhotoImage] (line 72) and at [np.array] (line 146), with
      [OSError]; [update_averages] and the callbacks that call it can raise.
    The canvas, the stored rectangles, slices and events are those of the
    model above. *)

Module Refined.

(** ** float64 *)

Definition float64 : Type := spec_float.

Definition prec : Z := 53.
Definition emax : Z := 1024.

(** [float(z)] *)
Definition of_Z (z : Z) : float64 := binary_normalize prec emax z 0 false.

Definition fsub : float64 -> float64 -> float64 := SFsub prec emax.
Definition fdiv : float64 -> float64 -> float64 := SFdiv prec emax.
Definition fabs : float64 -> float64 := SFabs.

(** [a < b] *)
Definition flt : float64 -> float64 -> bool := SFltb.

(** [np.mean(a)] of an array of integers: the values are summed in float64,
    which is exact while the partial sums stay below 2^53 in magnitude (any
    8-bit image of fewer than 2^45 values), and the sum is divided by the
    count, 0.0 / 0 being NaN. *)
Definition np_mean (a : ndarray) : float64 :=
  fdiv (of_Z (sumZ (ravel a))) (of_Z (Z.of_nat (length (ravel a)))).

(** ** Images *)

(** What [Image.open] returns: an image whose pixel data decode to an array,
    or one whose data cannot be read (a truncated file). *)
Inductive Image : Type :=
| Decoded (a : ndarray)
| Truncated.

(** ** The application object *)

Inductive label : Type :=
| ReferenceLabel (avg : float64)
| RegionLabel (n : nat) (color : string) (avg : float64) (diff : option float64).

Record app : Type := mkapp {
  image : option Image;
  rectangles : list rect;
  current_rect : option positive;
  start_x : option Q;
  start_y : option Q;
  current_color_index : nat;
  reference_rect_id : option positive;
  reference_avg : option float64;
  canvas : Canvas;
  results_frame : list label
}.

Definition set_image (v : option Image) (s : app) : app :=
  mkapp v (rectangles s) (current_rect s) (start_x s) (start_y s)
        (current_color_index s) (reference_rect_id s) (reference_avg s)
        (canvas s) (results_frame s).

Definition set_rectangles (v : list rect) (s : app) : app :=
  mkapp (image s) v (current_rect s) (start_x s) (start_y s)
        (current_color_index s) (reference_rect_id s) (reference_avg s)
        (canvas s) (results_frame s).

Definition set_current_rect (v : option positive) (s : app) : app :=
  mkapp (image s) (rectangles s) v (start_x s) (start_y s)
        (current_color_index s) (reference_rect_id s) (reference_avg s)
        (canvas s) (results_frame s).

Definition set_start (vx vy : option Q) (s : app) : app :=
  mkapp (image s) (rectangles s) (current_rect s) vx vy
        (current_color_index s) (reference_rect_id s) (reference_avg s)
        (canvas s) (results_frame s).

Definition set_current_color_index (v : nat) (s : app) : app :=
  mkapp (image s) (rectangles s) (current_rect s) (start_x s) (start_y s)
        v (reference_rect_id s) (reference_avg s)
        (canvas s) (results_frame s).

Definition set_reference_rect_id (v : option positive) (s : app) : app :=
  mkapp (image s) (rectangles s) (current_rect s) (start_x s) (start_y s)
        (current_color_index s) v (reference_avg s)
        (canvas s) (results_frame s).

Definition set_reference_avg (v : option float64) (s : app) : app :=
  mkapp (image s) (rectangles s) (current_rect s) (start_x s) (start_y s)
        (current_color_index s) (reference_rect_id s) v
        (canvas s) (results_frame s).

Definition set_canvas (v : Canvas) (s : app) : app :=
  mkapp (image s) (rectangles s) (current_rect s) (start_x s) (start_y s)
        (current_color_index s) (reference_rect_id s) (reference_avg s)
        v (results_frame s).

Definition set_results_frame (v : list label) (s : app) : app :=
  mkapp (image s) (rectangles s) (current_rect s) (start_x s) (start_y s)
        (current_color_index s) (reference_rect_id s) (reference_avg s)
        (canvas s) v.

Definition create_text (x y : Q) (t : caption) (fill : string) (s : app) : app :=
  set_canvas (snd (canvas_create (canvas s) (text_item x y t fill))) s.

Definition pack_label (l : label) (s : app) : app :=
  set_results_frame (results_frame s ++ [l]) s.

(** ** The state and exception monad *)

Inductive outcome (A : Type) : Type :=
| Ok (a : A) (s : app)
| Raise (e : exn) (s : app).

Arguments Ok {A} a s.
Arguments Raise {A} e s.

Definition M (A : Type) : Type := app -> outcome A.

Definition ret {A : Type} (a : A) : M A := fun s => Ok a s.

Definition bind {A B : Type} (m : M A) (k : A -> M B) : M B :=
  fun s =>
    match m s with
    | Ok a s' => k a s'
    | Raise e s' => Raise e s'
    end.

Definition get : M app := fun s => Ok s s.

Definition modify (f : app -> app) : M unit := fun s => Ok tt (f s).

Definition raise {A : Type} (e : exn) : M A := fun s => Raise e s.

Definition need {A : Type} (e : exn) (o : option A) : M A :=
  match o with
  | Some a => ret a
  | None => raise e
  end.

Declare Scope refined_scope.
Notation "x <- m ;; k" := (bind m (fun x => k))
  (at level 61, m at next level, right associativity) : refined_scope.
Notation "m ;;; k" := (bind m (fun _ => k))
  (at level 61, right associativity) : refined_scope.
Local Open Scope refined_scope.

Definition state_of {A : Type} (o : outcome A) : app :=
  match o with
  | Ok _ s => s
  | Raise _ s => s
  end.

(** [np.array(image)] (line 146): the array, or [OSError] for an image whose
    data cannot be read. *)
Definition np_array (im : Image) : M ndarray :=
  match im with
  | Decoded a => ret a
  | Truncated => raise OSError
  end.

(** [ImageTk.PhotoImage(image)] (line 72) reads the data too. *)
Definition PhotoImage (im : Image) : M unit :=
  match im with
  | Decoded _ => ret tt
  | Truncated => raise OSError
  end.

(** ** [update_averages] (lines 136-190) *)

(** Lines 149-161. *)
Definition reference_block (img_array : ndarray) (s : app) : app :=
  match reference_rect_id s with
  | Some ref_id =>
      match find (fun r => Pos.eqb (r_id r) ref_id) (rectangles s) with
      | Some ref_rect =>
          let x1 := Z.max 0 (py_int (r_x1 ref_rect)) in
          let y1 := Z.max 0 (py_int (r_y1 ref_rect)) in
          let x2 := Z.min (shape1 img_array) (py_int (r_x2 ref_rect)) in
          let y2 := Z.min (shape0 img_array) (py_int (r_y2 ref_rect)) in
          let ref_region := slice2 img_array y1 y2 x1 x2 in
          let avg := np_mean ref_region in
          pack_label (ReferenceLabel avg) (set_reference_avg (Some avg) s)
      | None => s
      end
  | None => s
  end.

(** Lines 164-190: one iteration of the loop. *)
Definition region_iteration (img_array : ndarray) (s : app) (ir : nat * rect) : app :=
  let i := fst ir in
  let r := snd ir in
  if is_reference_id (r_id r) (reference_rect_id s) then s
  else
    let x1 := Z.max 0 (py_int (r_x1 r)) in
    let y1 := Z.max 0 (py_int (r_y1 r)) in
    let x2 := Z.min (shape1 img_array) (py_int (r_x2 r)) in
    let y2 := Z.min (shape0 img_array) (py_int (r_y2 r)) in
    let region := slice2 img_array y1 y2 x1 x2 in
    let avg_value := np_mean region in
    match reference_avg s with
    | Some ref =>
        let diff := fabs (fsub avg_value ref) in
        let s1 :=
          if flt diff (of_Z 3)
          then create_text (inject_Z x1) (inject_Z (y1 - 10)) Svobodno "green" s
          else create_text (inject_Z x1) (inject_Z (y1 - 10)) Zanyato "red" s in
        pack_label (RegionLabel (i + 1) (r_color r) avg_value (Some diff)) s1
    | None =>
        pack_label (RegionLabel (i + 1) (r_color r) avg_value None) s
    end.

Definition update_averages : M unit :=
  modify (set_results_frame []) ;;;
  s <- get ;;
  match image s, rectangles s with
  | None, _ => ret tt
  | Some _, [] => ret tt
  | Some im, _ :: _ =>
      img_array <- np_array im ;;
      modify (reference_block img_array) ;;;
      modify (fun s =>
        fold_left (region_iteration img_array) (enumerate (rectangles s)) s)
  end.

(** ** [clear_rectangles] (lines 125-134) *)

Definition clear_rectangles : M unit :=
  modify (fun s =>
    set_canvas
      (fold_left (fun c r => canvas_delete c (r_id r)) (rectangles s) (canvas s)) s) ;;;
  modify (set_rectangles []) ;;;
  modify (set_reference_rect_id None) ;;;
  modify (set_reference_avg None) ;;;
  update_averages ;;;
  modify (fun s => set_canvas (canvas_delete_tag (canvas s) "text") s).

(** ** [load_image] (lines 65-75) *)

(** The file dialog and [Image.open]: no file chosen, a file [Image.open]
    refuses, or a file it opens. *)
Inductive chosen_file : Type :=
| Cancelled
| Unopenable
| Opens (im : Image).

Definition load_image (f : chosen_file) : M unit :=
  match f with
  | Cancelled => ret tt
  | Unopenable => raise OSError
  | Opens im =>
      modify (set_image (Some im)) ;;;
      PhotoImage im ;;;
      modify (fun s => set_canvas (snd (canvas_create (canvas s) (image_item 0 0))) s) ;;;
      clear_rectangles
  end.

(** ** Mouse callbacks (lines 77-123) *)

Definition current_color : M string :=
  s <- get ;;
  need IndexError (nth_error colors (current_color_index s)).

Definition create_rectangle (x1 y1 x2 y2 : Q) (outline : string) : M positive :=
  s <- get ;;
  let (id, c) := canvas_create (canvas s) (rectangle_item x1 y1 x2 y2 outline) in
  modify (set_canvas c) ;;;
  ret id.

Definition on_press (event_x event_y : Z) : M unit :=
  modify (set_start (Some (canvasx event_x)) (Some (canvasy event_y))) ;;;
  s <- get ;;
  match current_rect s with
  | Some cur => modify (fun s => set_canvas (canvas_delete (canvas s) cur) s)
  | None => ret tt
  end ;;;
  color <- current_color ;;
  id <- create_rectangle (canvasx event_x) (canvasy event_y)
                         (canvasx event_x) (canvasy event_y) color ;;
  modify (set_current_rect (Some id)).

Definition on_drag (event_x event_y : Z) : M unit :=
  s <- get ;;
  match current_rect s with
  | Some cur =>
      let cur_x := canvasx event_x in
      let cur_y := canvasy event_y in
      sx <- need TclError (start_x s) ;;
      sy <- need TclError (start_y s) ;;
      modify (fun s => set_canvas (canvas_coords (canvas s) cur sx sy cur_x cur_y) s)
  | None => ret tt
  end.

Definition on_release (event_x event_y : Z) : M unit :=
  s <- get ;;
  match current_rect s with
  | Some cur =>
      let end_x := canvasx event_x in
      let end_y := canvasy event_y in
      match rectangles s with
      | [] =>
          modify (set_reference_rect_id (Some cur)) ;;;
          sx <- need TypeError (start_x s) ;;
          sy <- need TypeError (start_y s) ;;
          let x1 := Qmin sx end_x in
          let y1 := Qmin sy end_y in
          modify (create_text x1 (y1 - inject_Z 10)%Q RefCaption "red")
      | _ :: _ => ret tt
      end ;;;
      sx <- need TypeError (start_x s) ;;
      sy <- need TypeError (start_y s) ;;
      color <- current_color ;;
      modify (fun s =>
        set_rectangles
          (rectangles s ++
             [mkrect (Qmin sx end_x) (Qmin sy end_y)
                     (Qmax sx end_x) (Qmax sy end_y) color cur]) s) ;;;
      modify (set_current_rect None) ;;;
      update_averages ;;;
      modify (fun s =>
        set_current_color_index
          ((current_color_index s + 1) mod length colors)%nat s)
  | None => ret tt
  end.

(** ** The program as a transition system *)

Definition init : app :=
  {| image := None;
     rectangles := [];
     current_rect := None;
     start_x := None;
     start_y := None;
     current_color_index := 0;
     reference_rect_id := None;
     reference_avg := None;
     canvas := {| next_id := 1; items := [] |};
     results_frame := [] |}.

Inductive event : Type :=
| LoadImage (f : chosen_file)
| ButtonPress (x y : Z)
| Motion (x y : Z)
| ButtonRelease (x y : Z)
| ClearRectangles.

Definition handle (e : event) : M unit :=
  match e with
  | LoadImage f => load_image f
  | ButtonPress x y => on_press x y
  | Motion x y => on_drag x y
  | ButtonRelease x y => on_release x y
  | ClearRectangles => clear_rectangles
  end.

Definition run (es : list event) (s : app) : app :=
  fold_left (fun s e => state_of (handle e s)) es s.

Inductive reachable : app -> Prop :=
| reach_init : reachable init
| reach_step s e : reachable s -> reachable (state_of (handle e s)).

(** ** Observations *)

(** The mean of the clamped slice of a region, as lines 153-156 and 170-175
    compute it. *)
Definition spec_mean (a : ndarray) (r : rect) : float64 :=
  let '(x1, y1, x2, y2) := spec_clamp (shape1 a) (shape0 a) (bounds r) in
  np_mean (slice2 a y1 y2 x1 x2).

Definition reference_region (s : app) : option rect :=
  match reference_rect_id s with
  | Some ref_id => find (fun r => Pos.eqb (r_id r) ref_id) (rectangles s)
  | None => None
  end.

Definition is_reference (s : app) (r : rect) : bool :=
  is_reference_id (r_id r) (reference_rect_id s).

Definition non_reference (s : app) : list (nat * rect) :=
  filter (fun ir => negb (is_reference s (snd ir))) (enumerate (rectangles s)).

Definition region_labels (s : app) : list label :=
  filter (fun l => match l with RegionLabel _ _ _ _ => true | _ => false end)
         (results_frame s).

Definition drawn (s : app) : list item := map snd (items (canvas s)).

Definition drawn_since (before after : app) : list item :=
  skipn (length (drawn before)) (drawn after).

Definition region_label (a : ndarray) (ref : option float64) (ir : nat * rect) : label :=
  RegionLabel (fst ir + 1) (r_color (snd ir)) (spec_mean a (snd ir))
    (option_map (fun m => fabs (fsub (spec_mean a (snd ir)) m)) ref).

Definition region_marker (a : ndarray) (ref : float64) (ir : nat * rect) : item :=
  let '(x1, y1, _, _) := spec_clamp (shape1 a) (shape0 a) (bounds (snd ir)) in
  if flt (fabs (fsub (spec_mean a (snd ir)) ref)) (of_Z 3)
  then text_item (inject_Z x1) (inject_Z (y1 - 10)) Svobodno "green"
  else text_item (inject_Z x1) (inject_Z (y1 - 10)) Zanyato "red".

(** What the analysis leaves alone. *)
Definition frame (s s' : app) : Prop :=
  image s' = image s /\
  rectangles s' = rectangles s /\
  current_rect s' = current_rect s /\
  start_x s' = start_x s /\
  start_y s' = start_y s /\
  current_color_index s' = current_color_index s /\
  reference_rect_id s' = reference_rect_id s /\
  (next_id (canvas s) <= next_id (canvas s'))%positive.

(** Lines 149-190 on the array [a], after the labels were removed. *)
Definition analysis (a : ndarray) (s : app) : app :=
  let s1 := reference_block a (set_results_frame [] s) in
  fold_left (region_iteration a) (enumerate (rectangles s1)) s1.

(** The state [on_release] hands to [update_averages] (lines 100-121). *)
Definition release_store (sx sy : Q) (event_x event_y : Z) (color : string)
           (cur : positive) (s : app) : app :=
  let end_x := canvasx event_x in
  let end_y := canvasy event_y in
  let s1 :=
    match rectangles s with
    | [] =>
        create_text (Qmin sx end_x) (Qmin sy end_y - inject_Z 10)%Q RefCaption "red"
                    (set_reference_rect_id (Some cur) s)
    | _ :: _ => s
    end in
  set_current_rect None
    (set_rectangles
       (rectangles s1 ++
          [mkrect (Qmin sx end_x) (Qmin sy end_y)
                  (Qmax sx end_x) (Qmax sy end_y) color cur]) s1).

(** The store after [clear_rectangles]. *)
Definition cleared (s : app) : app :=
  {| image := image s;
     rectangles := [];
     current_rect := current_rect s;
     start_x := start_x s;
     start_y := start_y s;
     current_color_index := current_color_index s;
     reference_rect_id := None;
     reference_avg := None;
     canvas := fold_left (fun c r => canvas_delete c (r_id r)) (rectangles s) (canvas s);
     results_frame := [] |}.

(** The invariant of the region store and of the draft rectangle. *)
Record store_inv (s : app) : Prop := {
  inv_ids_allocated :
    Forall (fun r => (r_id r < next_id (canvas s))%positive) (rectangles s);
  inv_ids_distinct : NoDup (map r_id (rectangles s));
  inv_draft :
    forall cur, current_rect s = Some cur ->
      (cur < next_id (canvas s))%positive /\
      ~ In cur (map r_id (rectangles s)) /\
      exists zx zy, start_x s = Some (inject_Z zx) /\ start_y s = Some (inject_Z zy);
  inv_reference :
    reference_rect_id s = option_map r_id (hd_error (rectangles s));
  inv_stored : Forall stored_ok (rectangles s);
  inv_color : (current_color_index s < length colors)%nat
}.

(** The panel and the reference mean are those of the current image and
    store whenever the image is absent or decodes; while the image is one that
    cannot be decoded and the store is not empty they are whatever they were. *)
Definition display_current (s : app) : Prop :=
  match image s, rectangles s with
  | Some (Decoded a), r0 :: _ =>
      reference_avg s = Some (spec_mean a r0) /\
      results_frame s =
        ReferenceLabel (spec_mean a r0) ::
        map (region_label a (Some (spec_mean a r0))) (tl (enumerate (rectangles s)))
  | Some Truncated, _ :: _ => True
  | _, _ => reference_avg s = None /\ results_frame s = []
  end.

(** No event of the list loads a file that opens but cannot be decoded. *)
Definition all_decode (es : list event) : Prop :=
  Forall (fun e => e <> LoadImage (Opens Truncated)) es.

(** ** Scenarios *)

(** The one-row image [[2,2,3,5,5,6]]: the means of its halves are 7/3 and
    16/3. *)
Definition thirds_image : Image := Decoded [[[2]; [2]; [3]; [5]; [5]; [6]]].

(** The one-row image [[5,3,3,0,1,1]]: the means of its halves are 11/3 and
    2/3. *)
Definition thirds_image' : Image := Decoded [[[5]; [3]; [3]; [0]; [1]; [1]]].

(** The image loaded, its left half drawn as the reference, its right half
    as the second region. *)
Definition halves (im : Image) : list event :=
  [LoadImage (Opens im); ButtonPress 0 0; ButtonRelease 3 1;
   ButtonPress 3 0; ButtonRelease 6 1].

(** A reference drawn, then a file loaded that opens but cannot be decoded,
    then a press. *)
Definition after_truncated_load : app :=
  run [LoadImage (Opens thirds_image); ButtonPress 0 0; ButtonRelease 3 1;
       LoadImage (Opens Truncated); ButtonPress 3 0] init.

End Refined.

(** * Properties *)

(** ** Floats *)


Lemma float_ltb_fin (x y : Q) :
  Float.ltb (Fin x) (Fin y) = true <-> (x < y)%Q.
Proof.
  simpl. rewrite Qlt_alt.
  destruct (x ?= y)%Q; split; intros H; try reflexivity; discriminate H.
Qed.

Lemma float_sub_nan (a b : npfloat) :
  a = NaN \/ b = NaN -> Float.abs (Float.sub a b) = NaN.
Proof.
  intros [-> | ->]; [reflexivity | now destruct a].
Qed.

(** ** [int] and slices *)

Lemma py_int_inject_Z (z : Z) : py_int (inject_Z z) = z.
Proof. unfold py_int. simpl. apply Z.quot_1_r. Qed.

Lemma py_slice_all {A : Type} (l : list A) :
  py_slice l 0 (Z.of_nat (length l)) = l.
Proof.
  unfold py_slice, slice_index. simpl.
  destruct (Z.of_nat (length l) <? 0) eqn:E; [apply Z.ltb_lt in E; lia|].
  rewrite Z.min_id, Z.min_l by lia. simpl.
  rewrite Z.sub_0_r, Nat2Z.id. apply firstn_all.
Qed.

(** A stop that is a real position at or before the start leaves nothing. *)
Lemma py_slice_nil {A : Type} (l : list A) (lo hi : Z) :
  0 <= hi -> hi <= lo -> py_slice l lo hi = [].
Proof.
  intros Hhi Hlo. unfold py_slice, slice_index.
  destruct (lo <? 0) eqn:E1; [apply Z.ltb_lt in E1; lia|].
  destruct (hi <? 0) eqn:E2; [apply Z.ltb_lt in E2; lia|].
  replace (Z.to_nat _) with 0%nat by lia. reflexivity.
Qed.

Lemma slice_rows_all (n : nat) (rows : list (list pixel)) :
  Forall (fun row => length row = n) rows ->
  map (fun row => py_slice row 0 (Z.of_nat n)) rows = rows.
Proof.
  induction 1 as [|row rows Hrow _ IH]; [reflexivity|].
  simpl. rewrite IH. f_equal. subst n. apply py_slice_all.
Qed.

Lemma slice2_all (a : ndarray) :
  rectangular a -> slice2 a 0 (shape0 a) 0 (shape1 a) = a.
Proof.
  intros Hr. unfold slice2, shape0, shape1. rewrite py_slice_all.
  now apply slice_rows_all.
Qed.

Lemma np_mean_no_columns (rows : list (list pixel)) (lo hi : Z) :
  0 <= hi -> hi <= lo ->
  np_mean (map (fun row => py_slice row lo hi) rows) = NaN.
Proof.
  intros Hhi Hlo. unfold np_mean, ravel.
  replace (concat (map (fun row => py_slice row lo hi) rows)) with (@nil (list Z)).
  - reflexivity.
  - induction rows as [|row rows IH]; [reflexivity|].
    simpl. now rewrite py_slice_nil by assumption.
Qed.

(** With stops that are real positions, an empty range of columns or of rows
    gives an empty slice, whose mean is NaN. *)
Lemma np_mean_empty_slice (a : ndarray) (y1 y2 x1 x2 : Z) :
  0 <= x2 -> 0 <= y2 -> x2 <= x1 \/ y2 <= y1 ->
  np_mean (slice2 a y1 y2 x1 x2) = NaN.
Proof.
  intros Hx Hy [H | H]; unfold slice2.
  - now apply np_mean_no_columns.
  - now rewrite (py_slice_nil a y1 y2).
Qed.

(** ** [update_averages] *)

Lemma frame_refl (s : app) : frame s s.
Proof. unfold frame. repeat split. reflexivity. Qed.

Lemma frame_trans (s1 s2 s3 : app) : frame s1 s2 -> frame s2 s3 -> frame s1 s3.
Proof.
  unfold frame.
  intros (A1 & A2 & A3 & A4 & A5 & A6 & A7 & A8) (B1 & B2 & B3 & B4 & B5 & B6 & B7 & B8).
  repeat split; try congruence. now apply Pos.le_trans with (next_id (canvas s2)).
Qed.

(** One iteration: a reference region is skipped; any other region gets its
    label and, when a reference mean is there, its marker. *)
Lemma region_iteration_spec (a : ndarray) (s : app) (ir : nat * rect) :
  let s' := region_iteration a s ir in
  frame s s' /\
  reference_avg s' = reference_avg s /\
  (if is_reference s (snd ir) then s' = s
   else
     results_frame s' = results_frame s ++ [region_label a (reference_avg s) ir] /\
     drawn s' = drawn s ++
       match reference_avg s with
       | Some ref => [region_marker a ref ir]
       | None => []
       end).
Proof.
  unfold region_iteration, is_reference.
  destruct (is_reference_id (r_id (snd ir)) (reference_rect_id s)); simpl.
  - split; [apply frame_refl | split; reflexivity].
  - unfold region_label, region_marker, spec_mean, spec_clamp, bounds, drawn.
    destruct (reference_avg s) as [ref|] eqn:Eref; simpl.
    + destruct (Float.ltb _ _); simpl.
      * repeat split; try reflexivity; try (simpl; lia);
          try assumption; now rewrite map_app.
      * repeat split; try reflexivity; try (simpl; lia);
          try assumption; now rewrite map_app.
    + repeat split; try reflexivity; try assumption.
      now rewrite app_nil_r.
Qed.

Lemma is_reference_frame (s s' : app) (r : rect) :
  frame s s' -> is_reference s' r = is_reference s r.
Proof.
  intros (_ & _ & _ & _ & _ & _ & H & _). unfold is_reference. now rewrite H.
Qed.

(** The whole loop, over any list of numbered regions. *)
Lemma region_loop_spec (a : ndarray) (irs : list (nat * rect)) :
  forall s : app,
    let s' := fold_left (region_iteration a) irs s in
    let kept := filter (fun ir => negb (is_reference s (snd ir))) irs in
    frame s s' /\
    reference_avg s' = reference_avg s /\
    results_frame s' = results_frame s ++ map (region_label a (reference_avg s)) kept /\
    drawn s' = drawn s ++
      match reference_avg s with
      | Some ref => map (region_marker a ref) kept
      | None => []
      end.
Proof.
  induction irs as [|ir irs IH]; intros s; simpl.
  - repeat split; try reflexivity; try apply frame_refl.
    + now rewrite app_nil_r.
    + destruct (reference_avg s); now rewrite app_nil_r.
  - destruct (region_iteration_spec a s ir) as (Hf & Hr & Hstep).
    destruct (IH (region_iteration a s ir)) as (Hf' & Hr' & Hl & Hd).
    assert (Hkept :
      filter (fun ir0 => negb (is_reference (region_iteration a s ir) (snd ir0))) irs =
      filter (fun ir0 => negb (is_reference s (snd ir0))) irs).
    { apply filter_ext. intros ir0. f_equal. now apply is_reference_frame. }
    rewrite Hkept, Hr in Hl, Hd.
    split; [now apply frame_trans with (region_iteration a s ir)|].
    split; [congruence|].
    destruct (is_reference s (snd ir)); simpl.
    + rewrite Hstep in Hl, Hd |- *. now split.
    + destruct Hstep as (Hl1 & Hd1). rewrite Hl, Hd, Hl1, Hd1.
      rewrite <- !app_assoc. split; [reflexivity|].
      destruct (reference_avg s); reflexivity.
Qed.

(** The reference block: the reference mean is recomputed exactly when the
    reference region is in the store. *)
Lemma reference_block_spec (a : ndarray) (s : app) :
  let s' := reference_block a s in
  frame s s' /\
  drawn s' = drawn s /\
  match reference_region s with
  | Some ref_rect =>
      reference_avg s' = Some (spec_mean a ref_rect) /\
      results_frame s' = results_frame s ++ [ReferenceLabel (spec_mean a ref_rect)]
  | None =>
      reference_avg s' = reference_avg s /\ results_frame s' = results_frame s
  end.
Proof.
  unfold reference_block, reference_region.
  destruct (reference_rect_id s) as [ref_id|].
  - destruct (find _ (rectangles s)) as [ref_rect|].
    + repeat split; simpl; lia.
    + repeat split; simpl; lia.
  - repeat split; simpl; lia.
Qed.

(** [update_averages] with an image and a non-empty store. *)
Lemma update_averages_spec (s : app) (im : Image) :
  image s = Some im -> rectangles s <> [] ->
  let s' := update_averages s in
  frame s s' /\
  reference_avg s' =
    match reference_region s with
    | Some ref_rect => Some (spec_mean im ref_rect)
    | None => reference_avg s
    end /\
  results_frame s' =
    match reference_region s with
    | Some ref_rect => [ReferenceLabel (spec_mean im ref_rect)]
    | None => []
    end ++ map (region_label im (reference_avg s')) (non_reference s) /\
  drawn s' = drawn s ++
    match reference_avg s' with
    | Some ref => map (region_marker im ref) (non_reference s)
    | None => []
    end.
Proof.
  intros Him Hne. unfold update_averages. simpl. rewrite Him.
  destruct (rectangles s) as [|r0 rs] eqn:Hrs; [contradiction|].
  set (s0 := set_results_frame [] s).
  assert (F0 : frame s s0) by (unfold frame; repeat split; reflexivity).
  destruct (reference_block_spec (np_array im) s0) as (F1 & D1 & Href).
  set (s1 := reference_block (np_array im) s0) in *.
  destruct (region_loop_spec (np_array im) (enumerate (rectangles s1)) s1)
    as (F2 & R2 & L2 & D2).
  cbv zeta in F2, R2, L2, D2.
  assert (F01 : frame s s1) by (now apply frame_trans with s0).
  assert (Hnon : filter (fun ir => negb (is_reference s1 (snd ir)))
                        (enumerate (rectangles s1)) = non_reference s).
  { unfold non_reference. destruct F01 as (_ & -> & _).
    apply filter_ext. intros ir. f_equal.
    apply is_reference_frame. now apply frame_trans with s0. }
  rewrite Hnon in L2, D2. rewrite R2.
  split; [now apply frame_trans with s1|].
  assert (Hreg : reference_region s0 = reference_region s) by reflexivity.
  rewrite Hreg in Href. unfold np_array in *.
  rewrite L2, D2, D1. change (drawn s0) with (drawn s).
  destruct (reference_region s) as [ref_rect|]; destruct Href as (Ha & Hl);
    rewrite Ha, Hl; repeat split; reflexivity.
Qed.

Lemma update_averages_no_image (s : app) :
  image s = None -> update_averages s = set_results_frame [] s.
Proof. intros H. unfold update_averages. simpl. now rewrite H. Qed.

Lemma update_averages_no_region (s : app) :
  rectangles s = [] -> update_averages s = set_results_frame [] s.
Proof.
  intros H. unfold update_averages. simpl. rewrite H. now destruct (image s).
Qed.

Lemma update_averages_frame (s : app) : frame s (update_averages s).
Proof.
  destruct (image s) as [im|] eqn:Him.
  - destruct (rectangles s) as [|r rs] eqn:Hrs.
    + rewrite update_averages_no_region by assumption.
      unfold frame. repeat split. reflexivity.
    + apply (update_averages_spec s im Him). rewrite Hrs. discriminate.
  - rewrite update_averages_no_image by assumption.
    unfold frame. repeat split. reflexivity.
Qed.

Lemma region_labels_update (s : app) (im : Image) :
  image s = Some im -> rectangles s <> [] ->
  region_labels (update_averages s) =
  map (region_label im (reference_avg (update_averages s))) (non_reference s).
Proof.
  intros Him Hne.
  destruct (update_averages_spec s im Him Hne) as (_ & _ & Hl & _).
  unfold region_labels. rewrite Hl, filter_app.
  replace (filter _ (match reference_region s with
                     | Some ref_rect => [ReferenceLabel (spec_mean im ref_rect)]
                     | None => []
                     end)) with (@nil label)
    by (now destruct (reference_region s)).
  simpl. clear Hl. induction (non_reference s) as [|ir irs IH]; [reflexivity|].
  simpl. now rewrite IH.
Qed.

Lemma drawn_since_app (s s' : app) (l : list item) :
  drawn s' = drawn s ++ l -> drawn_since s s' = l.
Proof.
  intros H. unfold drawn_since. rewrite H. clear H.
  induction (drawn s) as [|x xs IH]; [reflexivity | exact IH].
Qed.

Lemma drawn_since_update (s : app) (im : Image) :
  image s = Some im -> rectangles s <> [] ->
  drawn_since s (update_averages s) =
  match reference_avg (update_averages s) with
  | Some ref => map (region_marker im ref) (non_reference s)
  | None => []
  end.
Proof.
  intros Him Hne. apply drawn_since_app.
  now destruct (update_averages_spec s im Him Hne) as (_ & _ & _ & Hd).
Qed.

(** ** The region store *)

Lemma next_id_delete_all (rs : list rect) (c : Canvas) :
  next_id (fold_left (fun c r => canvas_delete c (r_id r)) rs c) = next_id c.
Proof.
  revert c. induction rs as [|r rs IH]; intros c; [reflexivity|].
  simpl. now rewrite IH.
Qed.

(** [clear_rectangles] written out. *)
Lemma clear_rectangles_eq (s : app) :
  clear_rectangles s =
  {| image := image s;
     rectangles := [];
     current_rect := current_rect s;
     start_x := start_x s;
     start_y := start_y s;
     current_color_index := current_color_index s;
     reference_rect_id := None;
     reference_avg := None;
     canvas := fold_left (fun c r => canvas_delete c (r_id r)) (rectangles s) (canvas s);
     results_frame := [] |}.
Proof.
  unfold clear_rectangles. rewrite update_averages_no_region by reflexivity.
  reflexivity.
Qed.

Lemma Qmin_inject_Z (a b : Z) : Qmin (inject_Z a) (inject_Z b) = inject_Z (Z.min a b).
Proof.
  unfold Qmin, GenericMinMax.gmin, Qcompare, Z.min. simpl.
  rewrite !Z.mul_1_r. now destruct (a ?= b).
Qed.

Lemma Qmax_inject_Z (a b : Z) : Qmax (inject_Z a) (inject_Z b) = inject_Z (Z.max a b).
Proof.
  unfold Qmax, GenericMinMax.gmax, Qcompare, Z.max. simpl.
  rewrite !Z.mul_1_r. now destruct (a ?= b).
Qed.

Lemma color_in_range (n : nat) :
  (n < length colors)%nat -> exists c, nth_error colors n = Some c.
Proof.
  intros H. destruct (nth_error colors n) as [c|] eqn:E; [now exists c|].
  apply nth_error_None in E. lia.
Qed.

Ltac run_callback :=
  unfold bind, ret, get, modify, raise, need, current_color, create_rectangle,
    state_of; simpl.

Lemma store_inv_init : store_inv init.
Proof.
  constructor; simpl;
    [constructor | constructor | intros cur H; discriminate H
    | reflexivity | constructor | lia].
Qed.

(** Whatever keeps the store and the draft and does not lower the id counter
    keeps the invariant. *)
Lemma store_inv_frame (s s' : app) :
  frame s s' -> store_inv s -> store_inv s'.
Proof.
  intros (_ & Hr & Hc & Hx & Hy & Hi & Hid & Hn) [I1 I2 I3 I4 I5 I6].
  constructor; rewrite ?Hr, ?Hc, ?Hx, ?Hy, ?Hi, ?Hid; try assumption.
  - eapply Forall_impl; [|exact I1]. simpl. intros r Hlt. lia.
  - intros cur Hcur. destruct (I3 cur Hcur) as (Hlt & Hnot & Hst).
    repeat split; try assumption. lia.
Qed.

Lemma on_press_inv (x y : Z) (s : app) :
  store_inv s ->
  (exists s', on_press x y s = Ok tt s') /\ store_inv (state_of (on_press x y s)).
Proof.
  intros [I1 I2 I3 I4 I5 I6].
  destruct (color_in_range _ I6) as (c & Hc).
  unfold on_press. run_callback.
  destruct (current_rect s) as [cur|]; run_callback; rewrite Hc; simpl;
    (split; [eexists; reflexivity|]);
    (constructor; simpl; try assumption;
     [ eapply Forall_impl; [|exact I1]; simpl; intros r Hlt; lia
     | intros cur' Hcur'; injection Hcur' as <-;
       split; [lia|]; split; [|now exists x, y];
       intros Hin; apply in_map_iff in Hin; destruct Hin as (r & Hr & Hin);
       rewrite Forall_forall in I1; specialize (I1 r Hin); lia ]).
Qed.

Lemma on_drag_inv (x y : Z) (s : app) :
  store_inv s ->
  (exists s', on_drag x y s = Ok tt s') /\ store_inv (state_of (on_drag x y s)).
Proof.
  intros I. pose proof I as [I1 I2 I3 I4 I5 I6].
  unfold on_drag. run_callback.
  destruct (current_rect s) as [cur|] eqn:Hcur; run_callback.
  - destruct (I3 cur eq_refl) as (_ & _ & zx & zy & Hx & Hy).
    rewrite Hx, Hy. simpl. split; [eexists; reflexivity|].
    apply store_inv_frame with s; [|exact I].
    unfold frame. repeat split. simpl. lia.
  - split; [eexists; reflexivity | exact I].
Qed.

Arguments update_averages : simpl never.

(** [on_release] with a draft rectangle, in a state that satisfies the
    invariant: it returns, having appended one region and run
    [update_averages] on the new store. *)
Lemma on_release_draft (x y : Z) (s : app) (cur : positive) :
  store_inv s -> current_rect s = Some cur ->
  exists (px py : Z) (color : string) (mid s' : app),
    start_x s = Some (inject_Z px) /\ start_y s = Some (inject_Z py) /\
    nth_error colors (current_color_index s) = Some color /\
    on_release x y s = Ok tt s' /\
    s' = set_current_color_index
           ((current_color_index s + 1) mod length colors)%nat (update_averages mid) /\
    image mid = image s /\
    reference_avg mid = reference_avg s /\
    rectangles mid = rectangles s ++ [stored_region px py x y color cur] /\
    rectangles s' = rectangles s ++ [stored_region px py x y color cur] /\
    reference_rect_id s' =
      match rectangles s with
      | [] => Some cur
      | _ :: _ => reference_rect_id s
      end /\
    current_rect s' = None /\
    image s' = image s /\
    current_color_index s' = ((current_color_index s + 1) mod length colors)%nat /\
    (next_id (canvas s) <= next_id (canvas s'))%positive.
Proof.
  intros [I1 I2 I3 I4 I5 I6] Hcur.
  destruct (I3 cur Hcur) as (_ & _ & px & py & Hx & Hy).
  destruct (color_in_range _ I6) as (color & Hc).
  exists px, py, color.
  unfold on_release. run_callback. rewrite Hcur.
  destruct (rectangles s) as [|r0 rs] eqn:Hrs; run_callback;
    rewrite Hx, Hy; simpl; rewrite ?Hc; simpl;
    rewrite ?Hrs, ?Qmin_inject_Z, ?Qmax_inject_Z;
    match goal with
    | |- context [update_averages ?m] =>
        exists m;
        destruct (update_averages_frame m) as (F1 & F2 & F3 & F4 & F5 & F6 & F7 & F8)
    end;
    eexists; (split; [reflexivity|]); (split; [reflexivity|]);
    (split; [reflexivity|]); (split; [reflexivity|]);
    simpl in *; rewrite ?F1, ?F2, ?F3, ?F6, ?F7;
    repeat split; try reflexivity; try lia.
Qed.

Lemma on_release_no_draft (x y : Z) (s : app) :
  current_rect s = None -> on_release x y s = Ok tt s.
Proof. intros H. unfold on_release. run_callback. now rewrite H. Qed.

Lemma stored_region_ok (px py x y : Z) (color : string) (cur : positive) :
  stored_ok (stored_region px py x y color cur).
Proof.
  exists (Z.min px x), (Z.min py y), (Z.max px x), (Z.max py y).
  simpl. repeat split; lia.
Qed.

Lemma on_release_inv (x y : Z) (s : app) :
  store_inv s ->
  (exists s', on_release x y s = Ok tt s') /\ store_inv (state_of (on_release x y s)).
Proof.
  intros I. destruct (current_rect s) as [cur|] eqn:Hcur.
  - destruct (on_release_draft x y s cur I Hcur)
      as (px & py & color & mid & s' & Hx & Hy & Hc & Hrun & _ & _ & _ & _ & Hrs & Href
          & Hnone & _ & Hidx & Hn).
    rewrite Hrun. simpl. split; [now exists s'|].
    destruct I as [I1 I2 I3 I4 I5 I6].
    destruct (I3 cur Hcur) as (Hlt & Hnot & _).
    constructor.
    + rewrite Hrs. apply Forall_app. split.
      * eapply Forall_impl; [|exact I1]. simpl. intros r Hr. lia.
      * constructor; [simpl; lia | constructor].
    + rewrite Hrs, map_app. simpl. apply NoDup_app.
      * exact I2.
      * constructor; [intros [] | constructor].
      * intros a Ha [<- | []]. now apply Hnot.
    + rewrite Hnone. intros c H. discriminate H.
    + rewrite Href, Hrs. destruct (rectangles s) as [|r0 rs]; [reflexivity|].
      exact I4.
    + rewrite Hrs. apply Forall_app. split; [exact I5|].
      constructor; [apply stored_region_ok | constructor].
    + rewrite Hidx. apply Nat.mod_upper_bound. discriminate.
  - rewrite on_release_no_draft by assumption. simpl.
    split; [now exists s | exact I].
Qed.

Lemma clear_rectangles_inv (s : app) :
  store_inv s -> store_inv (clear_rectangles s).
Proof.
  intros [I1 I2 I3 I4 I5 I6]. rewrite clear_rectangles_eq.
  constructor; simpl;
    [constructor | constructor | | reflexivity | constructor | assumption].
  intros cur Hcur. destruct (I3 cur Hcur) as (Hlt & _ & Hst).
  rewrite next_id_delete_all. repeat split; [exact Hlt | intros [] | exact Hst].
Qed.

Lemma load_image_inv (f : chosen_file) (s : app) :
  store_inv s -> store_inv (state_of (load_image f s)).
Proof.
  intros I. destruct f as [| |im]; try exact I.
  unfold load_image. run_callback. apply clear_rectangles_inv.
  apply store_inv_frame with (set_image (Some im) s).
  - unfold frame. repeat split. simpl. lia.
  - destruct I as [I1 I2 I3 I4 I5 I6]. now constructor.
Qed.

Lemma handle_inv (e : event) (s : app) :
  store_inv s -> store_inv (state_of (handle e s)).
Proof.
  intros I. destruct e as [f|x y|x y|x y|]; simpl.
  - now apply load_image_inv.
  - now apply on_press_inv.
  - now apply on_drag_inv.
  - now apply on_release_inv.
  - now apply clear_rectangles_inv.
Qed.

Lemma reachable_inv (s : app) : reachable s -> store_inv s.
Proof.
  induction 1 as [|s e _ IH]; [apply store_inv_init | now apply handle_inv].
Qed.

(** In a state the program can be in, the only callback that raises is
    [load_image] on a file that cannot be opened, and it changes nothing. *)
Lemma handle_raises (e : event) (s s' : app) (x : exn) :
  reachable s -> handle e s = Raise x s' ->
  e = LoadImage Unreadable /\ x = OSError /\ s' = s.
Proof.
  intros Hr. apply reachable_inv in Hr.
  destruct e as [f|px py|px py|px py|]; simpl; intros H.
  - destruct f as [| |im]; try discriminate H.
    unfold load_image, raise in H. injection H as <- <-. repeat split.
  - destruct (on_press_inv px py s Hr) as [(s1 & E) _]. congruence.
  - destruct (on_drag_inv px py s Hr) as [(s1 & E) _]. congruence.
  - destruct (on_release_inv px py s Hr) as [(s1 & E) _]. congruence.
  - discriminate H.
Qed.

Lemma run_reachable (es : list event) (s : app) :
  reachable s -> reachable (run es s).
Proof.
  revert s. induction es as [|e es IH]; intros s Hs; [exact Hs|].
  simpl. apply IH. now constructor.
Qed.

(** ** The scenarios of §8 *)

(** Reference (0,0,2,4) has mean 0; the region (2,0,4,4) has mean 10, at a
    difference of 10: MISMATCH. *)
Example scenario_mismatch_results :
  results_frame scenario_mismatch =
    [ReferenceLabel (Fin (0 # 8));
     RegionLabel 2 "blue" (Fin (80 # 8)) (Some (Fin (640 # 64)))] /\
  classifications scenario_mismatch = [MISMATCH].
Proof. split; reflexivity. Qed.

(** A second region equal to the reference: difference 0, MATCH. *)
Example scenario_match_results :
  results_frame scenario_match =
    [ReferenceLabel (Fin (0 # 8));
     RegionLabel 2 "blue" (Fin (0 # 8)) (Some (Fin (0 # 64)))] /\
  classifications scenario_match = [MATCH].
Proof. split; reflexivity. Qed.

(** The region (5,5,6,6) clamps to an empty slice: its mean is NaN, and the
    callback returned. *)
Example scenario_outside_results :
  results_frame scenario_outside =
    [ReferenceLabel (Fin (0 # 8)); RegionLabel 2 "blue" NaN (Some NaN)] /\
  classifications scenario_outside = [MISMATCH] /\
  exists s, on_release 6 6 (run (scenario_reference ++ [ButtonPress 5 5]) init) = Ok tt s.
Proof. repeat split. vm_compute. eexists. reflexivity. Qed.

(** ** The analysis of a non-reference region *)

Lemma shown_region_marker (a : ndarray) (ref : npfloat) (ir : nat * rect) :
  shown (region_marker a ref ir) =
  if Float.ltb (Float.abs (Float.sub (spec_mean a (snd ir)) ref)) (Float.of_Z 3)
  then Some MATCH else Some MISMATCH.
Proof.
  unfold region_marker.
  destruct (spec_clamp _ _ _) as [[[x1 y1] x2] y2].
  now destruct (Float.ltb _ _).
Qed.

Section NonReferenceRegion.

(** An image is loaded, the store is not empty, [update_averages] has a
    reference mean [ref] when it reaches the loop, and [ir] is the k-th region
    that the loop does not skip. *)
Variables (s : app) (im : Image) (ref : npfloat) (k : nat) (ir : nat * rect).
Hypothesis image_loaded : image s = Some im.
Hypothesis store_not_empty : rectangles s <> [].
Hypothesis reference_mean : reference_avg (update_averages s) = Some ref.
Hypothesis kth_region : nth_error (non_reference s) k = Some ir.

(** The region gets the k-th region label and the k-th marker added to the
    canvas. *)
Lemma non_reference_outputs :
  nth_error (region_labels (update_averages s)) k = Some (region_label im (Some ref) ir) /\
  nth_error (drawn_since s (update_averages s)) k = Some (region_marker im ref ir).
Proof.
  rewrite (region_labels_update s im image_loaded store_not_empty).
  rewrite (drawn_since_update s im image_loaded store_not_empty), reference_mean.
  split; now apply map_nth_error.
Qed.


(** C10. For every non-reference region, when a reference mean is available
    and it or the region's own mean is NaN, the difference shown is NaN and
    the marker is MISMATCH; a marker is put in every case. *)
Theorem nan_mean_is_mismatch :
  exists (avg diff : npfloat) (marker : item),
    nth_error (region_labels (update_averages s)) k =
      Some (RegionLabel (fst ir + 1) (r_color (snd ir)) avg (Some diff)) /\
    nth_error (drawn_since s (update_averages s)) k = Some marker /\
    (shown marker = Some MATCH \/ shown marker = Some MISMATCH) /\
    (ref = NaN \/ avg = NaN -> diff = NaN /\ shown marker = Some MISMATCH).
Proof.
  destruct non_reference_outputs as (Hl & Hm).
  exists (spec_mean im (snd ir)),
         (Float.abs (Float.sub (spec_mean im (snd ir)) ref)),
         (region_marker im ref ir).
  split; [exact Hl|]. split; [exact Hm|].
  rewrite shown_region_marker. split.
  - destruct (Float.ltb _ _); [now left | now right].
  - intros Hnan. rewrite float_sub_nan by tauto. split; reflexivity.
Qed.

End NonReferenceRegion.


Lemma nan_mean_is_mismatch_witness :
  exists (avg diff : npfloat) (marker : item),
    nth_error (region_labels (update_averages scenario_outside)) 0 =
      Some (RegionLabel 2 "blue" avg (Some diff)) /\
    nth_error (drawn_since scenario_outside (update_averages scenario_outside)) 0 =
      Some marker /\
    (shown marker = Some MATCH \/ shown marker = Some MISMATCH) /\
    (Fin (0 # 8) = NaN \/ avg = NaN -> diff = NaN /\ shown marker = Some MISMATCH).
Proof.
  apply (nan_mean_is_mismatch scenario_outside scenario_image (Fin (0 # 8)) 0%nat
           (1%nat, mkrect 5 5 6 6 "blue" 4%positive)).
  - reflexivity.
  - discriminate.
  - reflexivity.
  - reflexivity.
Defined.

(** ** A region that covers the image *)

Lemma spec_mean_covers (im : Image) (r : rect) :
  rectangular im -> covers im r -> spec_mean im r = np_mean im.
Proof.
  intros Hrect. unfold covers, spec_mean, spec_clamp.
  destruct (bounds r) as [[[x1 y1] x2] y2]. intros (Hx1 & Hy1 & Hx2 & Hy2).
  rewrite !Z.max_l, !Z.min_l by assumption.
  now rewrite slice2_all.
Qed.

Lemma non_reference_single (s : app) (r : rect) :
  rectangles s = [r] ->
  non_reference s = if is_reference s r then [] else [(0%nat, r)].
Proof.
  intros H. unfold non_reference, enumerate. rewrite H. simpl.
  now destruct (is_reference s r).
Qed.

Lemma reference_region_single (s : app) (r : rect) :
  rectangles s = [r] ->
  reference_region s = if is_reference s r then Some r else None.
Proof.
  intros H. unfold reference_region, is_reference, is_reference_id. rewrite H.
  destruct (reference_rect_id s) as [ref_id|]; [|reflexivity].
  simpl. now destruct (Pos.eqb (r_id r) ref_id).
Qed.

(** C1. With an image loaded and a single region that covers it, the one mean
    displayed is the mean of the whole array: the sum of all values of all
    channels over their number. *)
Theorem whole_image_region_mean (s : app) (im : Image) (r : rect) :
  rectangular im ->
  image s = Some im -> rectangles s = [r] -> covers im r ->
  map label_mean (results_frame (update_averages s)) = [np_mean im] /\
  (is_reference s r = true -> reference_avg (update_averages s) = Some (np_mean im)) /\
  (ravel im <> [] ->
   np_mean im = Fin (sumZ (ravel im) # Pos.of_nat (length (ravel im)))).
Proof.
  intros Hrect Him Hrs Hcov.
  assert (Hne : rectangles s <> []) by (rewrite Hrs; discriminate).
  destruct (update_averages_spec s im Him Hne) as (_ & Havg & Hl & _).
  rewrite (reference_region_single s r Hrs) in Havg, Hl.
  rewrite (non_reference_single s r Hrs) in Hl.
  split; [|split].
  - rewrite Hl. destruct (is_reference s r); simpl;
      now rewrite (spec_mean_covers im r Hrect Hcov).
  - intros Href. rewrite Href in Havg.
    now rewrite Havg, (spec_mean_covers im r Hrect Hcov).
  - intros Hvals. unfold np_mean. destruct (ravel im); [contradiction | reflexivity].
Qed.

Lemma scenario_image_rectangular : rectangular scenario_image.
Proof. repeat constructor. Qed.

Lemma whole_image_region_mean_witness :
  map label_mean (results_frame (update_averages scenario_whole)) = [Fin (80 # 16)] /\
  (is_reference scenario_whole (mkrect (-1) (-2) 4 5 "red" 2%positive) = true ->
   reference_avg (update_averages scenario_whole) = Some (np_mean scenario_image)) /\
  (ravel scenario_image <> [] ->
   np_mean scenario_image =
   Fin (sumZ (ravel scenario_image) # Pos.of_nat (length (ravel scenario_image)))).
Proof.
  apply (whole_image_region_mean scenario_whole scenario_image
           (mkrect (-1) (-2) 4 5 "red" 2%positive)).
  - exact scenario_image_rectangular.
  - reflexivity.
  - reflexivity.
  - vm_compute. repeat split; discriminate.
Defined.

(** ** Clamping *)

Lemma nth_error_enumerate_from {A : Type} (l : list A) :
  forall (k i : nat) (x : A),
    nth_error l i = Some x -> In ((k + i)%nat, x) (combine (seq k (length l)) l).
Proof.
  induction l as [|y l IH]; intros k i x H.
  - destruct i; discriminate H.
  - destruct i as [|i]; simpl in *.
    + injection H as ->. left. f_equal. lia.
    + right. replace (k + S i)%nat with (S k + i)%nat by lia. now apply IH.
Qed.

Lemma nth_error_enumerate {A : Type} (l : list A) (i : nat) (x : A) :
  nth_error l i = Some x -> In (i, x) (enumerate l).
Proof. intros H. exact (nth_error_enumerate_from l 0 i x H). Qed.

(** With distinct ids, looking a stored region up by its id finds it. *)
Lemma find_by_id (l : list rect) (r : rect) :
  NoDup (map r_id l) -> In r l ->
  find (fun r' => Pos.eqb (r_id r') (r_id r)) l = Some r.
Proof.
  induction l as [|r0 l IH]; intros Hnd Hin; [destruct Hin|].
  simpl in *. inversion Hnd as [|? ? Hnot Hnd']; subst.
  destruct Hin as [-> | Hin].
  - now rewrite Pos.eqb_refl.
  - destruct (Pos.eqb (r_id r0) (r_id r)) eqn:E.
    + apply Pos.eqb_eq in E. exfalso. apply Hnot. rewrite E. now apply in_map.
    + now apply IH.
Qed.

Lemma reference_region_found (s : app) (r : rect) :
  store_inv s -> In r (rectangles s) -> is_reference s r = true ->
  reference_region s = Some r.
Proof.
  intros I Hin Href. unfold is_reference, is_reference_id in Href.
  unfold reference_region. destruct (reference_rect_id s) as [ref_id|]; [|discriminate].
  apply Pos.eqb_eq in Href. subst ref_id.
  apply find_by_id; [apply (inv_ids_distinct s I) | exact Hin].
Qed.

Lemma spec_mean_stored (a : ndarray) (r : rect) (x1 y1 x2 y2 : Z) :
  r_x1 r = inject_Z x1 -> r_y1 r = inject_Z y1 ->
  r_x2 r = inject_Z x2 -> r_y2 r = inject_Z y2 ->
  spec_mean a r =
  np_mean (slice2 a (Z.max 0 y1) (Z.min (shape0 a) y2)
                    (Z.max 0 x1) (Z.min (shape1 a) x2)).
Proof.
  intros H1 H2 H3 H4. unfold spec_mean, spec_clamp, bounds.
  now rewrite H1, H2, H3, H4, !py_int_inject_Z.
Qed.

(** C5. For every stored region, on the reference path and in the loop alike,
    the mean displayed is the mean of image[y1':y2', x1':x2'] with
    x1' = max(0,x1), y1' = max(0,y1), x2' = min(W,x2), y2' = min(H,y2) on the
    region's integer bounds; and releasing the mouse anywhere returns without
    an exception. *)
Theorem bounds_are_clamped (s : app) (im : Image) (i : nat) (r : rect) :
  reachable s -> image s = Some im -> nth_error (rectangles s) i = Some r ->
  exists x1 y1 x2 y2 : Z,
    r_x1 r = inject_Z x1 /\ r_y1 r = inject_Z y1 /\
    r_x2 r = inject_Z x2 /\ r_y2 r = inject_Z y2 /\
    (let m := np_mean (slice2 (np_array im)
                         (Z.max 0 y1) (Z.min (shape0 (np_array im)) y2)
                         (Z.max 0 x1) (Z.min (shape1 (np_array im)) x2)) in
     if is_reference s r
     then reference_avg (update_averages s) = Some m /\
          In (ReferenceLabel m) (results_frame (update_averages s))
     else exists diff,
          In (RegionLabel (i + 1) (r_color r) m diff) (results_frame (update_averages s))) /\
    (forall x y : Z, exists s', on_release x y s = Ok tt s').
Proof.
  intros Hreach Him Hi. pose proof (reachable_inv s Hreach) as I.
  assert (Hin : In r (rectangles s)) by (now apply nth_error_In with i).
  pose proof (inv_stored s I) as Hst. rewrite Forall_forall in Hst.
  destruct (Hst r Hin) as (x1 & y1 & x2 & y2 & H1 & H2 & H3 & H4 & _).
  exists x1, y1, x2, y2. repeat (split; [assumption|]).
  split; [|intros x y; now apply on_release_inv].
  assert (Hne : rectangles s <> []).
  { intros E. rewrite E in Hin. destruct Hin. }
  destruct (update_averages_spec s im Him Hne) as (_ & Havg & Hl & _).
  cbv zeta. unfold np_array.
  rewrite <- (spec_mean_stored im r x1 y1 x2 y2 H1 H2 H3 H4).
  destruct (is_reference s r) eqn:Href.
  - rewrite (reference_region_found s r I Hin Href) in Havg, Hl.
    split; [exact Havg|]. rewrite Hl. now left.
  - exists (option_map
              (fun m => Float.abs (Float.sub (spec_mean im r) m))
              (reference_avg (update_averages s))).
    rewrite Hl. apply in_or_app. right.
    apply (in_map (region_label im (reference_avg (update_averages s)))
                  (non_reference s) (i, r)).
    unfold non_reference. apply filter_In. split.
    + now apply nth_error_enumerate.
    + simpl. now rewrite Href.
Qed.

Lemma bounds_are_clamped_witness :
  exists x1 y1 x2 y2 : Z,
    (5 : Q) = inject_Z x1 /\ (5 : Q) = inject_Z y1 /\
    (6 : Q) = inject_Z x2 /\ (6 : Q) = inject_Z y2 /\
    (let m := np_mean (slice2 (np_array scenario_image)
                         (Z.max 0 y1) (Z.min (shape0 (np_array scenario_image)) y2)
                         (Z.max 0 x1) (Z.min (shape1 (np_array scenario_image)) x2)) in
     if is_reference scenario_outside (mkrect 5 5 6 6 "blue" 4%positive)
     then reference_avg (update_averages scenario_outside) = Some m /\
          In (ReferenceLabel m) (results_frame (update_averages scenario_outside))
     else exists diff,
          In (RegionLabel (1 + 1) "blue" m diff)
             (results_frame (update_averages scenario_outside))) /\
    (forall x y : Z, exists s', on_release x y scenario_outside = Ok tt s').
Proof.
  apply (bounds_are_clamped scenario_outside scenario_image 1%nat
           (mkrect 5 5 6 6 "blue" 4%positive)).
  - unfold scenario_outside. apply run_reachable, reach_init.
  - reflexivity.
  - reflexivity.
Defined.

(** ** The store across events *)

(** Pressing and dragging touch the draft and the canvas only. *)
Lemma on_press_store (x y : Z) (s : app) :
  let s' := state_of (on_press x y s) in
  image s' = image s /\ rectangles s' = rectangles s /\
  reference_rect_id s' = reference_rect_id s /\
  reference_avg s' = reference_avg s /\ results_frame s' = results_frame s.
Proof.
  unfold on_press. run_callback.
  destruct (current_rect s); run_callback;
    destruct (nth_error colors (current_color_index s)); simpl; repeat split.
Qed.

Lemma on_drag_store (x y : Z) (s : app) :
  let s' := state_of (on_drag x y s) in
  image s' = image s /\ rectangles s' = rectangles s /\
  reference_rect_id s' = reference_rect_id s /\
  reference_avg s' = reference_avg s /\ results_frame s' = results_frame s.
Proof.
  unfold on_drag. run_callback.
  destruct (current_rect s); run_callback; [|repeat split].
  destruct (start_x s); simpl; [|repeat split].
  destruct (start_y s); simpl; repeat split.
Qed.

Lemma load_image_readable (im : Image) (s : app) :
  load_image (Readable im) s =
  Ok tt (clear_rectangles
           (set_canvas (snd (canvas_create (canvas s) (image_item 0 0)))
                       (set_image (Some im) s))).
Proof. reflexivity. Qed.



(** Deleting the canvas rectangles of the stored regions leaves none of
    their ids on the canvas. *)
Lemma canvas_delete_others (c : Canvas) (id id' : positive) :
  ~ In id (map fst (items c)) -> ~ In id (map fst (items (canvas_delete c id'))).
Proof.
  intros Hnot Hin. apply Hnot. simpl in Hin.
  apply in_map_iff in Hin. destruct Hin as (p & Hp & Hin).
  apply filter_In in Hin. apply in_map_iff. exists p. tauto.
Qed.

Lemma canvas_delete_self (c : Canvas) (id : positive) :
  ~ In id (map fst (items (canvas_delete c id))).
Proof.
  intros Hin. simpl in Hin. apply in_map_iff in Hin.
  destruct Hin as (p & Hp & Hin). apply filter_In in Hin.
  destruct Hin as (_ & Hneq). rewrite Hp, Pos.eqb_refl in Hneq. discriminate Hneq.
Qed.

Lemma canvas_delete_all_others (rs : list rect) (c : Canvas) (id : positive) :
  ~ In id (map fst (items c)) ->
  ~ In id (map fst (items (fold_left (fun c r => canvas_delete c (r_id r)) rs c))).
Proof.
  revert c. induction rs as [|r rs IH]; intros c Hnot; [exact Hnot|].
  simpl. apply IH. now apply canvas_delete_others.
Qed.

Lemma canvas_delete_all (rs : list rect) (c : Canvas) (r : rect) :
  In r rs ->
  ~ In (r_id r) (map fst (items (fold_left (fun c r => canvas_delete c (r_id r)) rs c))).
Proof.
  revert c. induction rs as [|r0 rs IH]; intros c Hin; [destruct Hin|].
  simpl. destruct Hin as [-> | Hin].
  - apply canvas_delete_all_others, canvas_delete_self.
  - now apply IH.
Qed.




(** C7. Loading an image that opens returns, sets the image, empties the
    store, resets the reference id and mean, removes the labels, and deletes
    the canvas rectangle of every region that was stored. *)
Theorem load_image_clears_store (s : app) (im : Image) :
  exists s',
    load_image (Readable im) s = Ok tt s' /\
    image s' = Some im /\
    rectangles s' = [] /\
    reference_rect_id s' = None /\
    reference_avg s' = None /\
    reference_region s' = None /\
    results_frame s' = [] /\
    (forall r, In r (rectangles s) -> ~ In (r_id r) (map fst (items (canvas s')))).
Proof.
  eexists. split; [apply load_image_readable|].
  rewrite clear_rectangles_eq. simpl. repeat split.
  intros r Hin. now apply canvas_delete_all.
Qed.

(** ** No image *)

Lemma no_image_no_labels (s : app) :
  reachable s -> image s = None -> results_frame s = [].
Proof.
  induction 1 as [|s e Hreach IH]; [reflexivity|].
  pose proof (reachable_inv s Hreach) as I.
  destruct e as [f|x y|x y|x y|]; unfold handle; cbv zeta.
  - destruct f as [| |im]; try exact IH.
    rewrite load_image_readable. unfold state_of. now rewrite clear_rectangles_eq.
  - destruct (on_press_store x y s) as (Hi & _ & _ & _ & Hl).
    rewrite Hi, Hl. exact IH.
  - destruct (on_drag_store x y s) as (Hi & _ & _ & _ & Hl).
    rewrite Hi, Hl. exact IH.
  - destruct (current_rect s) as [cur|] eqn:Hcur.
    + destruct (on_release_draft x y s cur I Hcur)
        as (px & py & color & mid & s' & _ & _ & _ & Hrun & Hs' & Him & _ & _ & _ & _
            & _ & Him' & _).
      rewrite Hrun. unfold state_of. rewrite Him'. intros Hnone.
      rewrite Hs'. simpl. rewrite update_averages_no_image by congruence.
      reflexivity.
    + rewrite on_release_no_draft by assumption. exact IH.
  - unfold modify, state_of. now rewrite clear_rectangles_eq.
Qed.

(** C8. With no image loaded, [update_averages] returns with no label and
    no marker and leaves the reference mean alone; in a state the program can
    be in, no label is on display and releasing the mouse returns without an
    exception and without a label. *)
Theorem no_image_empty_results (s : app) :
  image s = None ->
  update_averages s = set_results_frame [] s /\
  results_frame (update_averages s) = [] /\
  drawn_since s (update_averages s) = [] /\
  reference_avg (update_averages s) = reference_avg s /\
  (reachable s ->
   results_frame s = [] /\
   forall x y : Z, exists s', on_release x y s = Ok tt s' /\ results_frame s' = []).
Proof.
  intros Him. rewrite (update_averages_no_image s Him).
  split; [reflexivity|]. split; [reflexivity|].
  split; [apply drawn_since_app; now rewrite app_nil_r|].
  split; [reflexivity|].
  intros Hreach. split; [now apply no_image_no_labels|].
  intros x y.
  exists (state_of (on_release x y s)).
  destruct (on_release_inv x y s (reachable_inv s Hreach)) as [(s' & Hrun) _].
  rewrite Hrun. split; [reflexivity|].
  replace s' with (state_of (handle (ButtonRelease x y) s))
    by (simpl; now rewrite Hrun).
  apply no_image_no_labels; [now constructor|].
  simpl. rewrite Hrun. simpl.
  destruct (current_rect s) as [cur|] eqn:Hcur.
  - destruct (on_release_draft x y s cur (reachable_inv s Hreach) Hcur)
      as (px & py & color & mid & s'' & _ & _ & _ & Hrun' & _ & _ & _ & _ & _ & _
          & _ & Him' & _).
    congruence.
  - rewrite on_release_no_draft in Hrun by assumption. congruence.
Qed.

Lemma no_image_empty_results_witness :
  update_averages scenario_no_image = set_results_frame [] scenario_no_image /\
  results_frame (update_averages scenario_no_image) = [] /\
  drawn_since scenario_no_image (update_averages scenario_no_image) = [] /\
  reference_avg (update_averages scenario_no_image) = reference_avg scenario_no_image /\
  (reachable scenario_no_image ->
   results_frame scenario_no_image = [] /\
   forall x y : Z,
     exists s', on_release x y scenario_no_image = Ok tt s' /\ results_frame s' = []).
Proof.
  apply (no_image_empty_results scenario_no_image). reflexivity.
Defined.

(** ** Stored regions *)



(** ** Regions outside the image *)

(** A region whose clamped upper bounds are not negative and whose clamped
    range of columns or of rows is empty has the mean NaN. *)
Lemma spec_mean_empty (a : ndarray) (r : rect) :
  (let '(x1, y1, x2, y2) := spec_clamp (shape1 a) (shape0 a) (bounds r) in
   0 <= x2 /\ 0 <= y2 /\ (x2 <= x1 \/ y2 <= y1)) ->
  spec_mean a r = NaN.
Proof.
  unfold spec_mean. destruct (spec_clamp _ _ _) as [[[x1 y1] x2] y2].
  intros (Hx & Hy & H). now apply np_mean_empty_slice.
Qed.

(** C4, at the region (-10,0,-1,4) drawn to the left of the 4 x 4 image of
    §8: its clamped bounds are (0,0,-1,4), of no width, yet the mean reported
    for it is 40/12, the mean of the image's columns 0 to 2, because the stop
    -1 of the slice counts from the end. *)
Theorem region_left_of_image_has_a_mean :
  rectangles scenario_left =
    [mkrect 0 0 2 4 "red" 2%positive; mkrect (-10) 0 (-1) 4 "blue" 4%positive] /\
  spec_clamp (shape1 scenario_image) (shape0 scenario_image)
             (bounds (mkrect (-10) 0 (-1) 4 "blue" 4%positive)) = (0, 0, -1, 4) /\
  results_frame scenario_left =
    [ReferenceLabel (Fin (0 # 8));
     RegionLabel 2 "blue" (Fin (40 # 12)) (Some (Fin (320 # 96)))] /\
  np_mean (map (fun row => firstn 3 row) scenario_image) = Fin (40 # 12).
Proof. repeat split. Qed.

(** * Further properties of the callbacks *)

(** ** [on_release], written out *)

Lemma on_release_run (x y : Z) (s : app) (cur : positive) (sx sy : Q) (color : string) :
  current_rect s = Some cur ->
  start_x s = Some sx -> start_y s = Some sy ->
  nth_error colors (current_color_index s) = Some color ->
  on_release x y s =
  Ok tt (set_current_color_index
           ((current_color_index (update_averages (release_store sx sy x y color cur s)) + 1)
              mod length colors)%nat
           (update_averages (release_store sx sy x y color cur s))).
Proof.
  intros Hcur Hx Hy Hc. unfold on_release, release_store. run_callback.
  rewrite Hcur.
  destruct (rectangles s) as [|r0 rs] eqn:Hrs; run_callback;
    rewrite Hx, Hy; simpl; rewrite Hc; simpl; rewrite ?Hrs; reflexivity.
Qed.

(** In a state that satisfies the invariant, a draft comes with its start
    point and a colour. *)
Lemma draft_ready (s : app) (cur : positive) :
  store_inv s -> current_rect s = Some cur ->
  exists (px py : Z) (color : string),
    start_x s = Some (canvasx px) /\ start_y s = Some (canvasy py) /\
    nth_error colors (current_color_index s) = Some color.
Proof.
  intros I Hcur. destruct (inv_draft s I cur Hcur) as (_ & _ & px & py & Hx & Hy).
  destruct (color_in_range _ (inv_color s I)) as (color & Hc).
  now exists px, py, color.
Qed.

Lemma non_reference_ext (s1 s2 : app) :
  rectangles s1 = rectangles s2 -> reference_rect_id s1 = reference_rect_id s2 ->
  non_reference s1 = non_reference s2 /\ reference_region s1 = reference_region s2.
Proof.
  intros Hr Hid. unfold non_reference, reference_region, is_reference.
  now rewrite Hr, Hid.
Qed.

(** When the reference id is the id of the first region and the ids are
    distinct, the reference region is the first one and the loop handles all
    the others. *)
Lemma reference_is_head (s : app) (r0 : rect) (rs : list rect) :
  NoDup (map r_id (rectangles s)) ->
  rectangles s = r0 :: rs -> reference_rect_id s = Some (r_id r0) ->
  reference_region s = Some r0 /\ non_reference s = tl (enumerate (rectangles s)).
Proof.
  intros Hnd Hrs Hid. split.
  - unfold reference_region. rewrite Hid, Hrs. simpl. now rewrite Pos.eqb_refl.
  - unfold non_reference, is_reference, enumerate. rewrite Hid, Hrs in *. simpl.
    rewrite Pos.eqb_refl. simpl.
    simpl in Hnd. inversion Hnd as [|? ? Hnot _]; subst.
    generalize 1%nat. clear Hnd Hrs Hid.
    induction rs as [|r rs IH]; intros k; [reflexivity|]. simpl.
    destruct (Pos.eqb (r_id r) (r_id r0)) eqn:E.
    + apply Pos.eqb_eq in E. exfalso. apply Hnot. left. now rewrite E.
    + simpl. f_equal. apply IH. intros Hin. apply Hnot. now right.
Qed.

Lemma store_inv_head (s : app) (r0 : rect) (rs : list rect) :
  store_inv s -> rectangles s = r0 :: rs ->
  reference_region s = Some r0 /\ non_reference s = tl (enumerate (rectangles s)).
Proof.
  intros I Hrs. apply reference_is_head with rs.
  - apply (inv_ids_distinct s I).
  - exact Hrs.
  - rewrite (inv_reference s I), Hrs. reflexivity.
Qed.

Lemma release_store_fields (sx sy : Q) (x y : Z) (color : string) (cur : positive)
      (s : app) :
  let mid := release_store sx sy x y color cur s in
  image mid = image s /\
  rectangles mid =
    rectangles s ++
      [mkrect (Qmin sx (canvasx x)) (Qmin sy (canvasy y))
              (Qmax sx (canvasx x)) (Qmax sy (canvasy y)) color cur] /\
  reference_rect_id mid =
    match rectangles s with
    | [] => Some cur
    | _ :: _ => reference_rect_id s
    end /\
  reference_avg mid = reference_avg s /\
  current_rect mid = None /\
  current_color_index mid = current_color_index s.
Proof.
  unfold release_store. destruct (rectangles s) eqn:Hrs; simpl; rewrite ?Hrs;
    repeat split.
Qed.

(** ** The panel follows the store *)

Lemma display_current_ext (s s' : app) :
  image s' = image s -> rectangles s' = rectangles s ->
  reference_avg s' = reference_avg s -> results_frame s' = results_frame s ->
  display_current s -> display_current s'.
Proof.
  intros H1 H2 H3 H4. unfold display_current. now rewrite H1, H2, H3, H4.
Qed.

(** [update_averages] brings the panel up to date, when the reference id is
    the id of the first region. *)
Lemma update_averages_display (s : app) :
  NoDup (map r_id (rectangles s)) ->
  reference_rect_id s = option_map r_id (hd_error (rectangles s)) ->
  (image s = None \/ rectangles s = [] -> reference_avg s = None) ->
  display_current (update_averages s).
Proof.
  intros Hnd Hid Hnone. unfold display_current.
  destruct (image s) as [im|] eqn:Him.
  - destruct (rectangles s) as [|r0 rs] eqn:Hrs.
    + rewrite update_averages_no_region by assumption. simpl.
      rewrite Him, Hrs. split; [apply Hnone; now right | reflexivity].
    + assert (Hne : rectangles s <> []) by (rewrite Hrs; discriminate).
      destruct (update_averages_spec s im Him Hne)
        as ((Fi & Fr & _) & Havg & Hl & _).
      destruct (reference_is_head s r0 rs) as (Href & Hnon);
        [now rewrite Hrs | exact Hrs | exact Hid |].
      rewrite Href in Havg, Hl. rewrite Hnon in Hl.
      rewrite Fi, Fr, Him, Hrs. rewrite Havg in Hl |- *.
      split; [reflexivity|]. rewrite Hl, Hrs. reflexivity.
  - rewrite update_averages_no_image by assumption. simpl. rewrite Him.
    split; [apply Hnone; now left | reflexivity].
Qed.

Lemma reachable_display (s : app) : reachable s -> display_current s.
Proof.
  induction 1 as [|s e Hreach IH]; [split; reflexivity|].
  pose proof (reachable_inv s Hreach) as I.
  destruct e as [f|x y|x y|x y|]; unfold handle; cbv zeta.
  - destruct f as [| |im]; try exact IH.
    rewrite load_image_readable. unfold state_of. rewrite clear_rectangles_eq.
    split; reflexivity.
  - destruct (on_press_store x y s) as (H1 & H2 & _ & H3 & H4).
    now apply display_current_ext with s.
  - destruct (on_drag_store x y s) as (H1 & H2 & _ & H3 & H4).
    now apply display_current_ext with s.
  - destruct (current_rect s) as [cur|] eqn:Hcur.
    + destruct (draft_ready s cur I Hcur) as (px & py & color & Hx & Hy & Hc).
      rewrite (on_release_run x y s cur _ _ color Hcur Hx Hy Hc). unfold state_of.
      set (mid := release_store (canvasx px) (canvasy py) x y color cur s).
      destruct (release_store_fields (canvasx px) (canvasy py) x y color cur s)
        as (Mi & Mr & Mid & Ma & _). fold mid in Mi, Mr, Mid, Ma.
      apply display_current_ext with (update_averages mid); try reflexivity.
      destruct (inv_draft s I cur Hcur) as (_ & Hnot & _).
      apply update_averages_display.
      * rewrite Mr, map_app. simpl. apply NoDup_app.
        -- apply (inv_ids_distinct s I).
        -- constructor; [intros [] | constructor].
        -- intros a Ha [<- | []]. now apply Hnot.
      * rewrite Mid, Mr. rewrite (inv_reference s I).
        now destruct (rectangles s).
      * intros [Hn | Hn].
        -- rewrite Ma. rewrite Mi in Hn. unfold display_current in IH.
           rewrite Hn in IH. apply IH.
        -- rewrite Mr in Hn. now destruct (rectangles s).
    + rewrite on_release_no_draft by assumption. exact IH.
  - unfold modify, state_of. rewrite clear_rectangles_eq.
    unfold display_current. simpl. destruct (image s); split; reflexivity.
Qed.

(** ** Recomputing *)

(** X6. Running [update_averages] a second time changes no label and not
    the reference mean, in any state; but it puts the same markers on the
    canvas once more. *)
Theorem update_averages_twice (s : app) :
  results_frame (update_averages (update_averages s)) = results_frame (update_averages s) /\
  reference_avg (update_averages (update_averages s)) = reference_avg (update_averages s) /\
  drawn_since (update_averages s) (update_averages (update_averages s)) =
  drawn_since s (update_averages s).
Proof.
  destruct (image s) as [im|] eqn:Him.
  - destruct (rectangles s) as [|r0 rs] eqn:Hrs.
    + rewrite (update_averages_no_region s Hrs).
      rewrite update_averages_no_region by exact Hrs.
      repeat split.
    + assert (Hne : rectangles s <> []) by (rewrite Hrs; discriminate).
      destruct (update_averages_spec s im Him Hne)
        as ((Fi & Fr & _ & _ & _ & _ & Fid & _) & Havg & Hl & Hd).
      set (s1 := update_averages s) in *.
      assert (Him1 : image s1 = Some im) by congruence.
      assert (Hne1 : rectangles s1 <> []) by congruence.
      destruct (update_averages_spec s1 im Him1 Hne1) as (_ & Havg1 & Hl1 & Hd1).
      destruct (non_reference_ext s1 s Fr Fid) as (Hnon & Hreg).
      rewrite Hnon, Hreg in *.
      assert (Hsame : reference_avg (update_averages s1) = reference_avg s1).
      { rewrite Havg1, Havg. now destruct (reference_region s). }
      rewrite Hsame in *. repeat split.
      * now rewrite Hl1, Hl.
      * now rewrite (drawn_since_app _ _ _ Hd1), (drawn_since_app _ _ _ Hd).
  - rewrite (update_averages_no_image s Him).
    rewrite update_averages_no_image by exact Him.
    repeat split.
Qed.

(** ** A region with the bounds of the reference *)

(** X9. A non-reference region with the same integer bounds as the
    reference region has the reference's mean; its marker is MATCH, with a
    difference of 0, when that mean is defined, and MISMATCH when the
    reference slice is empty. *)
Theorem same_bounds_as_reference (s : app) (im : Image) (r0 : rect)
        (k : nat) (ir : nat * rect) :
  image s = Some im ->
  reference_region s = Some r0 ->
  nth_error (non_reference s) k = Some ir ->
  bounds (snd ir) = bounds r0 ->
  exists (avg diff : npfloat) (marker : item),
    reference_avg (update_averages s) = Some avg /\
    nth_error (region_labels (update_averages s)) k =
      Some (RegionLabel (fst ir + 1) (r_color (snd ir)) avg (Some diff)) /\
    nth_error (drawn_since s (update_averages s)) k = Some marker /\
    (forall m : Q, avg = Fin m ->
       shown marker = Some MATCH /\ exists d : Q, diff = Fin d /\ (d == 0)%Q) /\
    (avg = NaN -> shown marker = Some MISMATCH /\ diff = NaN).
Proof.
  intros Him Href Hk Hb.
  assert (Hne : rectangles s <> []).
  { intros E. unfold reference_region in Href. rewrite E in Href.
    destruct (reference_rect_id s); discriminate Href. }
  destruct (update_averages_spec s im Him Hne) as (_ & Havg & _).
  rewrite Href in Havg.
  destruct (non_reference_outputs s im (spec_mean im r0) k ir Him Hne Havg Hk)
    as (Hl & Hm).
  assert (Hmean : spec_mean im (snd ir) = spec_mean im r0).
  { unfold spec_mean. now rewrite Hb. }
  exists (spec_mean im r0),
         (Float.abs (Float.sub (spec_mean im r0) (spec_mean im r0))),
         (region_marker im (spec_mean im r0) ir).
  split; [exact Havg|]. split; [unfold region_label in Hl; now rewrite Hmean in Hl|].
  split; [exact Hm|].
  rewrite shown_region_marker, Hmean. split.
  - intros m ->.
    assert (H0 : (Qabs (m - m) == 0)%Q).
    { setoid_replace (m - m)%Q with 0%Q by ring. reflexivity. }
    split.
    + replace (Float.ltb _ _) with true; [reflexivity|].
      symmetry. apply float_ltb_fin. rewrite H0. reflexivity.
    + exists (Qabs (m - m)). split; [reflexivity | exact H0].
  - intros ->. split; reflexivity.
Qed.

Lemma same_bounds_as_reference_witness :
  exists (avg diff : npfloat) (marker : item),
    reference_avg (update_averages scenario_match) = Some avg /\
    nth_error (region_labels (update_averages scenario_match)) 0 =
      Some (RegionLabel 2 "blue" avg (Some diff)) /\
    nth_error (drawn_since scenario_match (update_averages scenario_match)) 0 =
      Some marker /\
    (forall m : Q, avg = Fin m ->
       shown marker = Some MATCH /\ exists d : Q, diff = Fin d /\ (d == 0)%Q) /\
    (avg = NaN -> shown marker = Some MISMATCH /\ diff = NaN).
Proof.
  apply (same_bounds_as_reference scenario_match scenario_image
           (mkrect 0 0 2 4 "red" 2%positive) 0%nat
           (1%nat, mkrect 0 0 2 4 "blue" 4%positive)).
  - reflexivity.
  - reflexivity.
  - reflexivity.
  - reflexivity.
Defined.

(** ** The canvas *)

Lemma canvas_wf_create (c : Canvas) (it : item) :
  canvas_wf c -> canvas_wf (snd (canvas_create c it)).
Proof.
  intros (Hnd & Hlt). split; simpl.
  - rewrite map_app. simpl. apply NoDup_app.
    + exact Hnd.
    + constructor; [intros [] | constructor].
    + intros a Ha [<- | []]. apply in_map_iff in Ha.
      destruct Ha as (p & Hp & Hin). rewrite Forall_forall in Hlt.
      specialize (Hlt p Hin). rewrite Hp in Hlt. lia.
  - apply Forall_app. split.
    + eapply Forall_impl; [|exact Hlt]. simpl. intros p Hp. lia.
    + constructor; [simpl; lia | constructor].
Qed.

Lemma NoDup_map_filter {A B : Type} (f : A -> B) (g : A -> bool) (l : list A) :
  NoDup (map f l) -> NoDup (map f (filter g l)).
Proof.
  induction l as [|a l IH]; intros H; [constructor|].
  simpl in *. inversion H as [|? ? Hnot Hnd]; subst.
  destruct (g a); simpl; [constructor|]; auto.
  intros Hin. apply Hnot. apply in_map_iff in Hin.
  destruct Hin as (p & Hp & Hin). apply filter_In in Hin.
  apply in_map_iff. exists p. tauto.
Qed.

Lemma canvas_wf_delete (c : Canvas) (id : positive) :
  canvas_wf c -> canvas_wf (canvas_delete c id).
Proof.
  intros (Hnd & Hlt). split; simpl.
  - now apply NoDup_map_filter.
  - apply Forall_forall. intros p Hin. apply filter_In in Hin.
    rewrite Forall_forall in Hlt. now apply Hlt.
Qed.

Lemma canvas_wf_delete_all (rs : list rect) (c : Canvas) :
  canvas_wf c -> canvas_wf (fold_left (fun c r => canvas_delete c (r_id r)) rs c).
Proof.
  revert c. induction rs as [|r rs IH]; intros c H; [exact H|].
  simpl. apply IH. now apply canvas_wf_delete.
Qed.

Lemma canvas_coords_ids (c : Canvas) (id : positive) (x1 y1 x2 y2 : Q) :
  map fst (items (canvas_coords c id x1 y1 x2 y2)) = map fst (items c) /\
  canvas_rectangles (canvas_coords c id x1 y1 x2 y2) = canvas_rectangles c /\
  canvas_texts (canvas_coords c id x1 y1 x2 y2) = canvas_texts c.
Proof.
  unfold canvas_rectangles, canvas_texts. simpl.
  induction (items c) as [|[i it] l (IH1 & IH2 & IH3)]; [repeat split|].
  simpl. destruct (Pos.eqb i id); destruct it; simpl;
    rewrite ?IH1, ?IH2, ?IH3; repeat split.
Qed.

Lemma canvas_wf_coords (c : Canvas) (id : positive) (x1 y1 x2 y2 : Q) :
  canvas_wf c -> canvas_wf (canvas_coords c id x1 y1 x2 y2).
Proof.
  intros (Hnd & Hlt). destruct (canvas_coords_ids c id x1 y1 x2 y2) as (Hids & _).
  split; [now rewrite Hids|].
  apply Forall_forall. intros p Hin.
  assert (Hf : In (fst p) (map fst (items c))) by (rewrite <- Hids; now apply in_map).
  apply in_map_iff in Hf. destruct Hf as (q & Hq & Hqin).
  rewrite Forall_forall in Hlt. specialize (Hlt q Hqin). simpl. now rewrite <- Hq.
Qed.

Lemma canvas_rectangles_delete (c : Canvas) (id : positive) :
  canvas_rectangles (canvas_delete c id) =
  filter (fun p => negb (Pos.eqb (fst p) id)) (canvas_rectangles c).
Proof.
  unfold canvas_rectangles. simpl.
  induction (items c) as [|[i it] l IH]; [reflexivity|].
  simpl. destruct (Pos.eqb i id) eqn:E; simpl.
  - rewrite IH. destruct it; simpl; rewrite ?E; reflexivity.
  - rewrite IH. destruct it; simpl; rewrite ?E; reflexivity.
Qed.

Lemma canvas_texts_delete (c : Canvas) (id : positive) :
  canvas_texts (canvas_delete c id) =
  filter (fun p => negb (Pos.eqb (fst p) id)) (canvas_texts c).
Proof.
  unfold canvas_texts. simpl.
  induction (items c) as [|[i it] l IH]; [reflexivity|].
  simpl. destruct (Pos.eqb i id) eqn:E; simpl.
  - rewrite IH. destruct (is_text it); simpl; rewrite ?E; reflexivity.
  - rewrite IH. destruct (is_text it); simpl; rewrite ?E; reflexivity.
Qed.

Lemma filter_all {A : Type} (g : A -> bool) (l : list A) :
  (forall a, In a l -> g a = true) -> filter g l = l.
Proof.
  induction l as [|a l IH]; intros H; [reflexivity|].
  simpl. rewrite (H a) by now left. f_equal. apply IH. intros b Hb. apply H. now right.
Qed.

Lemma filter_none {A : Type} (g : A -> bool) (l : list A) :
  (forall a, In a l -> g a = false) -> filter g l = [].
Proof.
  induction l as [|a l IH]; intros H; [reflexivity|].
  simpl. rewrite (H a) by now left. apply IH. intros b Hb. apply H. now right.
Qed.

Lemma texts_added_refl (c : Canvas) : texts_added c c.
Proof. split; [auto|]. split; [reflexivity|]. exists []. now rewrite app_nil_r. Qed.

Lemma texts_added_trans (c1 c2 c3 : Canvas) :
  texts_added c1 c2 -> texts_added c2 c3 -> texts_added c1 c3.
Proof.
  intros (W1 & R1 & n1 & T1) (W2 & R2 & n2 & T2).
  split; [auto|]. split; [congruence|].
  exists (n1 ++ n2). now rewrite T2, T1, app_assoc.
Qed.

Lemma texts_added_create_text (c : Canvas) (x y : Q) (t : caption) (fill : string) :
  texts_added c (snd (canvas_create c (text_item x y t fill))).
Proof.
  split; [apply canvas_wf_create|]. unfold canvas_rectangles, canvas_texts. simpl.
  split.
  - rewrite flat_map_app. simpl. now rewrite app_nil_r.
  - exists [(next_id c, text_item x y t fill)]. now rewrite filter_app.
Qed.

Lemma region_iteration_canvas (a : ndarray) (s : app) (ir : nat * rect) :
  texts_added (canvas s) (canvas (region_iteration a s ir)).
Proof.
  unfold region_iteration.
  destruct (is_reference_id _ _); [apply texts_added_refl|].
  destruct (reference_avg s); [|apply texts_added_refl].
  destruct (Float.ltb _ _); apply texts_added_create_text.
Qed.

Lemma region_loop_canvas (a : ndarray) (irs : list (nat * rect)) (s : app) :
  texts_added (canvas s) (canvas (fold_left (region_iteration a) irs s)).
Proof.
  revert s. induction irs as [|ir irs IH]; intros s; [apply texts_added_refl|].
  simpl. eapply texts_added_trans; [apply region_iteration_canvas | apply IH].
Qed.

(** [update_averages] only adds texts to the canvas. *)
Lemma update_averages_canvas (s : app) :
  texts_added (canvas s) (canvas (update_averages s)).
Proof.
  unfold update_averages. simpl.
  destruct (image s) as [im|]; [|apply texts_added_refl].
  destruct (rectangles s) as [|r0 rs] eqn:Hrs; [apply texts_added_refl|].
  set (s0 := set_results_frame [] s).
  assert (Hc : canvas (reference_block (np_array im) s0) = canvas s).
  { unfold reference_block. destruct (reference_rect_id s0); [|reflexivity].
    destruct (find _ _); reflexivity. }
  rewrite <- Hc at 1. apply region_loop_canvas.
Qed.

Lemma on_press_run (x y : Z) (s : app) (color : string) :
  nth_error colors (current_color_index s) = Some color ->
  on_press x y s =
  Ok tt (set_current_rect (Some (next_id (press_canvas s)))
           (set_canvas
              (snd (canvas_create (press_canvas s)
                      (rectangle_item (canvasx x) (canvasy y) (canvasx x) (canvasy y) color)))
              (set_start (Some (canvasx x)) (Some (canvasy y)) s))).
Proof.
  intros Hc. unfold on_press, press_canvas. run_callback.
  destruct (current_rect s); run_callback; rewrite Hc; reflexivity.
Qed.

Lemma on_drag_run (x y : Z) (s : app) (cur : positive) (sx sy : Q) :
  current_rect s = Some cur -> start_x s = Some sx -> start_y s = Some sy ->
  on_drag x y s =
  Ok tt (set_canvas (canvas_coords (canvas s) cur sx sy (canvasx x) (canvasy y)) s).
Proof.
  intros Hcur Hx Hy. unfold on_drag. run_callback.
  rewrite Hcur, Hx, Hy. reflexivity.
Qed.

Lemma NoDup_fst_eq {A : Type} (l : list (positive * A)) (p q : positive * A) :
  NoDup (map fst l) -> In p l -> In q l -> fst p = fst q -> p = q.
Proof.
  induction l as [|a l IH]; intros Hnd Hp Hq Heq; [destruct Hp|].
  simpl in Hnd. inversion Hnd as [|? ? Hnot Hnd']; subst.
  destruct Hp as [-> | Hp], Hq as [-> | Hq].
  - reflexivity.
  - exfalso. apply Hnot. rewrite Heq. now apply in_map.
  - exfalso. apply Hnot. rewrite <- Heq. now apply in_map.
  - now apply IH.
Qed.

Lemma canvas_rectangles_In (c : Canvas) (id : positive) (o : string) :
  In (id, o) (canvas_rectangles c) <->
  exists x1 y1 x2 y2, In (id, rectangle_item x1 y1 x2 y2 o) (items c).
Proof.
  unfold canvas_rectangles. rewrite in_flat_map. split.
  - intros ([i it] & Hin & H). destruct it; simpl in H; try destruct H.
    + injection H as <- <-. now exists x1, y1, x2, y2.
    + destruct H.
  - intros (x1 & y1 & x2 & y2 & Hin).
    exists (id, rectangle_item x1 y1 x2 y2 o). split; [exact Hin | now left].
Qed.

(** No text on the canvas has the id of a rectangle. *)
Lemma text_id_not_rectangle (c : Canvas) (id : positive) (o : string)
      (p : positive * item) :
  canvas_wf c -> In (id, o) (canvas_rectangles c) -> In p (canvas_texts c) ->
  fst p <> id.
Proof.
  intros (Hnd & _) Hr Ht Heq. apply canvas_rectangles_In in Hr.
  destruct Hr as (x1 & y1 & x2 & y2 & Hin).
  apply filter_In in Ht. destruct Ht as (Hpin & Htext).
  pose proof (NoDup_fst_eq (items c) p _ Hnd Hpin Hin Heq) as E.
  rewrite E in Htext. discriminate Htext.
Qed.

Lemma canvas_texts_delete_rectangle (c : Canvas) (id : positive) (o : string) :
  canvas_wf c -> In (id, o) (canvas_rectangles c) ->
  canvas_texts (canvas_delete c id) = canvas_texts c.
Proof.
  intros Hwf Hin. rewrite canvas_texts_delete. apply filter_all.
  intros p Hp. apply negb_true_iff, Pos.eqb_neq.
  now apply (text_id_not_rectangle c id o).
Qed.

Lemma store_ids_not_draft (s : app) (cur : positive) :
  store_inv s -> current_rect s = Some cur ->
  filter (fun p : positive * string => negb (Pos.eqb (fst p) cur))
         (map (fun r => (r_id r, r_color r)) (rectangles s)) =
  map (fun r => (r_id r, r_color r)) (rectangles s).
Proof.
  intros I Hcur. destruct (inv_draft s I cur Hcur) as (_ & Hnot & _).
  apply filter_all. intros p Hp. apply negb_true_iff, Pos.eqb_neq.
  intros E. apply Hnot. apply in_map_iff in Hp. destruct Hp as (r & <- & Hr).
  simpl in E. rewrite <- E. now apply in_map.
Qed.

(** The canvas [on_press] draws on holds the stored regions' rectangles and
    all the texts. *)
Lemma press_canvas_spec (s : app) :
  store_inv s -> canvas_inv s ->
  canvas_wf (press_canvas s) /\
  canvas_rectangles (press_canvas s) =
    map (fun r => (r_id r, r_color r)) (rectangles s) /\
  canvas_texts (press_canvas s) = canvas_texts (canvas s).
Proof.
  intros I (Hwf & Hrect). unfold press_canvas, store_rectangles in *.
  destruct (current_rect s) as [cur|] eqn:Hcur.
  - split; [now apply canvas_wf_delete|]. split.
    + rewrite canvas_rectangles_delete, Hrect, filter_app.
      rewrite (store_ids_not_draft s cur I Hcur). simpl.
      rewrite Pos.eqb_refl. simpl. apply app_nil_r.
    + apply canvas_texts_delete_rectangle
        with (o := nth (current_color_index s) colors ""%string); [exact Hwf|].
      rewrite Hrect. apply in_or_app. right. now left.
  - split; [exact Hwf|]. split; [|reflexivity].
    now rewrite Hrect, app_nil_r.
Qed.

Lemma canvas_delete_all_spec (rs : list rect) :
  forall (c : Canvas) (rest : list (positive * string)),
    canvas_wf c ->
    NoDup (map r_id rs) ->
    (forall p, In p rest -> ~ In (fst p) (map r_id rs)) ->
    canvas_rectangles c = map (fun r => (r_id r, r_color r)) rs ++ rest ->
    let c' := fold_left (fun c r => canvas_delete c (r_id r)) rs c in
    canvas_rectangles c' = rest /\ canvas_texts c' = canvas_texts c.
Proof.
  induction rs as [|r rs IH]; intros c rest Hwf Hnd Hrest Hrect; simpl.
  - now split.
  - simpl in Hnd. inversion Hnd as [|? ? Hnot Hnd']; subst.
    assert (Hdel : canvas_rectangles (canvas_delete c (r_id r)) =
                   map (fun r => (r_id r, r_color r)) rs ++ rest).
    { rewrite canvas_rectangles_delete, Hrect. simpl. rewrite Pos.eqb_refl. simpl.
      apply filter_all. intros p Hp. apply negb_true_iff, Pos.eqb_neq. intros E.
      apply in_app_or in Hp. destruct Hp as [Hp | Hp].
      - apply Hnot. apply in_map_iff in Hp. destruct Hp as (r' & <- & Hr').
        simpl in E. rewrite <- E. now apply in_map.
      - apply (Hrest p Hp). left. now symmetry. }
    destruct (IH (canvas_delete c (r_id r)) rest) as (H1 & H2).
    + now apply canvas_wf_delete.
    + exact Hnd'.
    + intros p Hp Hin. apply (Hrest p Hp). now right.
    + exact Hdel.
    + split; [exact H1|]. rewrite H2.
      apply canvas_texts_delete_rectangle with (o := r_color r); [exact Hwf|].
      rewrite Hrect. now left.
Qed.

Lemma clear_rectangles_canvas (s : app) :
  NoDup (map r_id (rectangles s)) ->
  (forall cur, current_rect s = Some cur -> ~ In cur (map r_id (rectangles s))) ->
  canvas_inv s ->
  canvas_inv (clear_rectangles s) /\
  canvas_texts (canvas (clear_rectangles s)) = canvas_texts (canvas s).
Proof.
  intros Hnd Hdraft (Hwf & Hrect). rewrite clear_rectangles_eq.
  unfold canvas_inv, store_rectangles in *. simpl.
  destruct (canvas_delete_all_spec (rectangles s) (canvas s)
              (match current_rect s with
               | Some cur => [(cur, nth (current_color_index s) colors ""%string)]
               | None => []
               end) Hwf Hnd) as (H1 & H2).
  - intros p Hp. destruct (current_rect s) as [cur|] eqn:Hcur; [|destruct Hp].
    destruct Hp as [<- | []]. simpl. now apply Hdraft.
  - exact Hrect.
  - split; [|exact H2]. split; [now apply canvas_wf_delete_all | exact H1].
Qed.

(** Every event keeps the canvas in agreement with the object and leaves
    every text where it is. *)
Lemma handle_canvas (e : event) (s : app) :
  store_inv s -> canvas_inv s ->
  canvas_inv (state_of (handle e s)) /\
  exists new,
    canvas_texts (canvas (state_of (handle e s))) = canvas_texts (canvas s) ++ new.
Proof.
  intros I C. pose proof C as (Hwf & Hrect).
  assert (Hsame : canvas_inv s /\
                  exists new, canvas_texts (canvas s) = canvas_texts (canvas s) ++ new).
  { split; [exact C|]. exists []. now rewrite app_nil_r. }
  destruct e as [f|x y|x y|x y|]; unfold handle; cbv zeta.
  - destruct f as [| |im]; try exact Hsame.
    rewrite load_image_readable. unfold state_of.
    set (s1 := set_canvas (snd (canvas_create (canvas s) (image_item 0 0)))
                          (set_image (Some im) s)).
    assert (C1 : canvas_inv s1).
    { split; [now apply canvas_wf_create|].
      unfold canvas_rectangles. simpl. rewrite flat_map_app. simpl.
      rewrite app_nil_r. exact Hrect. }
    assert (T1 : canvas_texts (canvas s1) = canvas_texts (canvas s)).
    { unfold canvas_texts. simpl. rewrite filter_app. simpl. apply app_nil_r. }
    destruct (clear_rectangles_canvas s1) as (C2 & T2).
    + apply (inv_ids_distinct s I).
    + intros cur Hcur. now apply (inv_draft s I cur).
    + exact C1.
    + split; [exact C2|]. exists []. now rewrite T2, T1, app_nil_r.
  - destruct (color_in_range _ (inv_color s I)) as (color & Hc).
    rewrite (on_press_run x y s color Hc). unfold state_of.
    destruct (press_canvas_spec s I C) as (Pwf & Prect & Ptext).
    split; [split|].
    + simpl. now apply canvas_wf_create.
    + unfold canvas_rectangles, store_rectangles in *. simpl.
      rewrite flat_map_app, Prect. simpl.
      pose proof (nth_error_nth _ _ ""%string Hc) as Hn. simpl in Hn.
      now rewrite Hn.
    + exists []. unfold canvas_texts in *. simpl. rewrite filter_app, Ptext. reflexivity.
  - destruct (current_rect s) as [cur|] eqn:Hcur.
    + destruct (draft_ready s cur I Hcur) as (px & py & color & Hx & Hy & _).
      rewrite (on_drag_run x y s cur _ _ Hcur Hx Hy). unfold state_of.
      destruct (canvas_coords_ids (canvas s) cur (canvasx px) (canvasy py)
                  (canvasx x) (canvasy y)) as (_ & Hr & Ht).
      split; [split|].
      * simpl. now apply canvas_wf_coords.
      * simpl. rewrite Hr. exact Hrect.
      * exists []. simpl. now rewrite Ht, app_nil_r.
    + unfold on_drag. run_callback. rewrite Hcur. exact Hsame.
  - destruct (current_rect s) as [cur|] eqn:Hcur.
    + destruct (draft_ready s cur I Hcur) as (px & py & color & Hx & Hy & Hc).
      rewrite (on_release_run x y s cur _ _ color Hcur Hx Hy Hc). unfold state_of.
      set (mid := release_store (canvasx px) (canvasy py) x y color cur s).
      destruct (release_store_fields (canvasx px) (canvasy py) x y color cur s)
        as (_ & Mr & _ & _ & Mc & _). fold mid in Mr, Mc.
      assert (Hmid : texts_added (canvas s) (canvas mid)).
      { unfold mid, release_store. destruct (rectangles s); simpl;
          [apply texts_added_create_text | apply texts_added_refl]. }
      pose proof (texts_added_trans _ _ _ Hmid (update_averages_canvas mid))
        as (W & R & new & T).
      destruct (update_averages_frame mid) as (_ & Fr & Fc & _).
      split; [split|].
      * simpl. now apply W.
      * simpl. rewrite R, Hrect. unfold store_rectangles. simpl.
        rewrite Fr, Fc, Mr, Mc, Hcur, map_app. simpl.
        pose proof (nth_error_nth _ _ ""%string Hc) as Hn. simpl in Hn.
        now rewrite Hn, app_nil_r.
      * exists new. exact T.
    + rewrite on_release_no_draft by assumption. exact Hsame.
  - unfold modify, state_of.
    destruct (clear_rectangles_canvas s) as (C2 & T2).
    + apply (inv_ids_distinct s I).
    + intros cur Hcur. now apply (inv_draft s I cur).
    + exact C.
    + split; [exact C2|]. exists []. now rewrite T2, app_nil_r.
Qed.

Lemma reachable_canvas (s : app) : reachable s -> canvas_inv s.
Proof.
  induction 1 as [|s e Hreach IH].
  - split; [split; constructor | reflexivity].
  - now apply handle_canvas; [apply reachable_inv|].
Qed.

(** X2. In every state the program can be in, the ids on the canvas are
    distinct and the rectangles on the canvas are exactly, in order, those of
    the stored regions, each outlined in the region's colour, followed by the
    draft rectangle, if there is one, in the current colour: no stored region
    loses its rectangle and no abandoned draft stays on the canvas. *)
Theorem canvas_shows_store (s : app) :
  reachable s ->
  NoDup (map fst (items (canvas s))) /\
  canvas_rectangles (canvas s) =
    map (fun r => (r_id r, r_color r)) (rectangles s) ++
    match current_rect s with
    | Some cur => [(cur, nth (current_color_index s) colors ""%string)]
    | None => []
    end.
Proof.
  intros Hreach. destruct (reachable_canvas s Hreach) as ((Hnd & _) & Hrect).
  split; [exact Hnd | exact Hrect].
Qed.

Lemma canvas_shows_store_witness :
  NoDup (map fst (items (canvas scenario_mismatch))) /\
  canvas_rectangles (canvas scenario_mismatch) =
    map (fun r => (r_id r, r_color r)) (rectangles scenario_mismatch) ++
    match current_rect scenario_mismatch with
    | Some cur => [(cur, nth (current_color_index scenario_mismatch) colors ""%string)]
    | None => []
    end.
Proof.
  apply (canvas_shows_store scenario_mismatch).
  unfold scenario_mismatch. apply run_reachable, reach_init.
Defined.

(** X3. No event removes a caption or a marker from the canvas: after any
    event the texts that were on the canvas are still there, in order, before
    the new ones. In particular [clear_rectangles] leaves all of them, since
    it deletes the regions' rectangles and then only items tagged "text",
    which no item is. *)
Theorem texts_are_never_deleted (s : app) (e : event) :
  reachable s ->
  (exists new,
     canvas_texts (canvas (state_of (handle e s))) = canvas_texts (canvas s) ++ new) /\
  canvas_texts (canvas (clear_rectangles s)) = canvas_texts (canvas s).
Proof.
  intros Hreach. pose proof (reachable_inv s Hreach) as I.
  pose proof (reachable_canvas s Hreach) as C. split.
  - now apply handle_canvas.
  - apply clear_rectangles_canvas.
    + apply (inv_ids_distinct s I).
    + intros cur Hcur. now apply (inv_draft s I cur).
    + exact C.
Qed.

Lemma texts_are_never_deleted_witness :
  (exists new,
     canvas_texts (canvas (state_of (handle ClearRectangles scenario_mismatch))) =
     canvas_texts (canvas scenario_mismatch) ++ new) /\
  canvas_texts (canvas (clear_rectangles scenario_mismatch)) =
  canvas_texts (canvas scenario_mismatch).
Proof.
  apply (texts_are_never_deleted scenario_mismatch ClearRectangles).
  unfold scenario_mismatch. apply run_reachable, reach_init.
Defined.

(** X11. Dragging with a draft returns and moves the draft rectangle: its
    canvas item runs from the press point to the pointer, in the current
    colour; every other canvas item and the store are left as they are.
    Dragging without a draft changes nothing. *)
Theorem drag_moves_only_the_draft (s : app) (x y : Z) :
  reachable s ->
  match current_rect s with
  | Some cur =>
      exists (px py : Z) (s' : app),
        start_x s = Some (canvasx px) /\ start_y s = Some (canvasy py) /\
        on_drag x y s = Ok tt s' /\
        In (cur, rectangle_item (canvasx px) (canvasy py) (canvasx x) (canvasy y)
                   (nth (current_color_index s) colors ""%string))
           (items (canvas s')) /\
        (forall p, fst p <> cur -> (In p (items (canvas s')) <-> In p (items (canvas s)))) /\
        rectangles s' = rectangles s /\ results_frame s' = results_frame s
  | None => on_drag x y s = Ok tt s
  end.
Proof.
  intros Hreach. pose proof (reachable_inv s Hreach) as I.
  destruct (reachable_canvas s Hreach) as (_ & Hrect).
  destruct (current_rect s) as [cur|] eqn:Hcur.
  - destruct (draft_ready s cur I Hcur) as (px & py & color & Hx & Hy & _).
    exists px, py. eexists. split; [exact Hx|]. split; [exact Hy|].
    split; [apply (on_drag_run x y s cur _ _ Hcur Hx Hy)|].
    simpl. split; [|split; [|split; reflexivity]].
    + assert (Hin : In (cur, nth (current_color_index s) colors ""%string)
                       (canvas_rectangles (canvas s))).
      { rewrite Hrect. unfold store_rectangles. rewrite Hcur.
        apply in_or_app. right. now left. }
      apply canvas_rectangles_In in Hin. destruct Hin as (x1 & y1 & x2 & y2 & Hin).
      apply in_map_iff. exists (cur, rectangle_item x1 y1 x2 y2
                                       (nth (current_color_index s) colors ""%string)).
      split; [|exact Hin]. simpl. now rewrite Pos.eqb_refl.
    + intros p Hp. rewrite in_map_iff. split.
      * intros (q & Hq & Hin). destruct (Pos.eqb (fst q) cur) eqn:E.
        -- apply Pos.eqb_eq in E. exfalso. apply Hp. rewrite <- Hq.
           destruct (snd q); simpl; exact E.
        -- now rewrite <- Hq.
      * intros Hin. exists p. split; [|exact Hin].
        apply Pos.eqb_neq in Hp. now rewrite Hp.
  - unfold on_drag. run_callback. now rewrite Hcur.
Qed.

Lemma drag_moves_only_the_draft_witness :
  match current_rect (run (scenario_reference ++ [ButtonPress 4 4]) init) with
  | Some cur =>
      exists (px py : Z) (s' : app),
        start_x (run (scenario_reference ++ [ButtonPress 4 4]) init) = Some (canvasx px) /\
        start_y (run (scenario_reference ++ [ButtonPress 4 4]) init) = Some (canvasy py) /\
        on_drag 3 2 (run (scenario_reference ++ [ButtonPress 4 4]) init) = Ok tt s' /\
        In (cur, rectangle_item (canvasx px) (canvasy py) (canvasx 3) (canvasy 2)
                   (nth (current_color_index
                           (run (scenario_reference ++ [ButtonPress 4 4]) init))
                        colors ""%string))
           (items (canvas s')) /\
        (forall p, fst p <> cur ->
           (In p (items (canvas s')) <->
            In p (items (canvas (run (scenario_reference ++ [ButtonPress 4 4]) init))))) /\
        rectangles s' = rectangles (run (scenario_reference ++ [ButtonPress 4 4]) init) /\
        results_frame s' =
        results_frame (run (scenario_reference ++ [ButtonPress 4 4]) init)
  | None =>
      on_drag 3 2 (run (scenario_reference ++ [ButtonPress 4 4]) init) =
      Ok tt (run (scenario_reference ++ [ButtonPress 4 4]) init)
  end.
Proof.
  apply (drag_moves_only_the_draft (run (scenario_reference ++ [ButtonPress 4 4]) init) 3 2).
  apply run_reachable, reach_init.
Defined.

(** ** Bounds on the displayed values *)

Lemma In_firstn {A : Type} (n : nat) (l : list A) (x : A) :
  In x (firstn n l) -> In x l.
Proof.
  revert l. induction n as [|n IH]; intros [|a l] H; simpl in *; try contradiction.
  destruct H as [-> | H]; [now left | right; now apply IH].
Qed.

Lemma In_skipn {A : Type} (n : nat) (l : list A) (x : A) :
  In x (skipn n l) -> In x l.
Proof.
  revert l. induction n as [|n IH]; intros [|a l] H; simpl in *; try contradiction;
    try assumption.
  right. now apply IH.
Qed.

Lemma In_py_slice {A : Type} (l : list A) (lo hi : Z) (x : A) :
  In x (py_slice l lo hi) -> In x l.
Proof. unfold py_slice. intros H. eapply In_skipn, In_firstn, H. Qed.

(** Every value of a slice is a value of the array. *)
Lemma In_ravel_slice2 (a : ndarray) (y1 y2 x1 x2 v : Z) :
  In v (ravel (slice2 a y1 y2 x1 x2)) -> In v (ravel a).
Proof.
  unfold ravel, slice2. rewrite !in_concat.
  intros (px & Hpx & Hv). rewrite in_concat in Hpx.
  destruct Hpx as (row' & Hrow' & Hpx). apply in_map_iff in Hrow'.
  destruct Hrow' as (row & <- & Hrow).
  exists px. split; [|exact Hv]. apply in_concat. exists row.
  split; [eapply In_py_slice, Hrow | eapply In_py_slice, Hpx].
Qed.

Lemma pixels_within_ravel (lo hi : Z) (a : ndarray) (v : Z) :
  pixels_within lo hi a -> In v (ravel a) -> lo <= v <= hi.
Proof.
  unfold pixels_within, ravel. intros H Hin.
  apply in_concat in Hin. destruct Hin as (px & Hpx & Hv).
  apply in_concat in Hpx. destruct Hpx as (row & Hrow & Hpx).
  rewrite Forall_forall in H. specialize (H row Hrow).
  rewrite Forall_forall in H. specialize (H px Hpx).
  rewrite Forall_forall in H. now apply H.
Qed.

Lemma sumZ_bounds (lo hi : Z) (l : list Z) :
  (forall v, In v l -> lo <= v <= hi) ->
  lo * Z.of_nat (length l) <= sumZ l <= hi * Z.of_nat (length l).
Proof.
  induction l as [|v l IH]; intros H; [simpl; lia|].
  assert (Hv : lo <= v <= hi) by (apply H; now left).
  assert (Hl : lo * Z.of_nat (length l) <= sumZ l <= hi * Z.of_nat (length l))
    by (apply IH; intros w Hw; apply H; now right).
  change (sumZ (v :: l)) with (v + sumZ l).
  change (length (v :: l)) with (S (length l)). rewrite Nat2Z.inj_succ. lia.
Qed.

(** The mean of values between [lo] and [hi] is NaN or between them. *)
Lemma np_mean_within (lo hi : Z) (a : ndarray) :
  (forall v, In v (ravel a) -> lo <= v <= hi) ->
  float_within (inject_Z lo) (inject_Z hi) (np_mean a).
Proof.
  intros H. unfold np_mean. destruct (ravel a) as [|v vs] eqn:E; [exact I|].
  pose proof (sumZ_bounds lo hi (v :: vs) H) as (Hlo & Hhi).
  assert (Hn : Z.pos (Pos.of_nat (length (v :: vs))) = Z.of_nat (length (v :: vs))).
  { rewrite <- positive_nat_Z, Nat2Pos.id; [reflexivity | discriminate]. }
  unfold float_within, Qle, inject_Z. cbn [Qnum Qden]. rewrite Hn. split; lia.
Qed.

Lemma spec_mean_within (lo hi : Z) (a : ndarray) (r : rect) :
  pixels_within lo hi a ->
  float_within (inject_Z lo) (inject_Z hi) (spec_mean a r).
Proof.
  intros H. unfold spec_mean. destruct (spec_clamp _ _ _) as [[[x1 y1] x2] y2].
  apply np_mean_within. intros v Hv.
  apply (pixels_within_ravel lo hi a v H). now apply In_ravel_slice2 in Hv.
Qed.

Lemma diff_within (lo hi : Q) (a b : npfloat) :
  float_within lo hi a -> float_within lo hi b ->
  float_within 0 (hi - lo) (Float.abs (Float.sub a b)).
Proof.
  destruct a as [|x], b as [|y]; try exact (fun _ _ => I).
  unfold Float.sub, Float.abs, float_within.
  intros (Hx1 & Hx2) (Hy1 & Hy2). split; [apply Qabs_nonneg|].
  apply Qabs_diff_Qle_condition. split; lra.
Qed.

(** X8. In every state the program can be in, when every channel value of
    the image lies between lo and hi (0 and 255 for an 8-bit image), every
    mean on display is NaN or lies between lo and hi, and every difference on
    display is NaN or lies between 0 and hi - lo. *)
Theorem displayed_values_within (s : app) (im : Image) (lo hi : Z) (l : label) :
  reachable s -> image s = Some im -> pixels_within lo hi im ->
  In l (results_frame s) ->
  float_within (inject_Z lo) (inject_Z hi) (label_mean l) /\
  (forall d, label_diff l = Some d ->
     float_within 0 (inject_Z hi - inject_Z lo) d).
Proof.
  intros Hreach Him Hpix Hin. pose proof (reachable_display s Hreach) as D.
  unfold display_current in D. rewrite Him in D.
  destruct (rectangles s) as [|r0 rs].
  - destruct D as (_ & D). rewrite D in Hin. destruct Hin.
  - destruct D as (_ & D). rewrite D in Hin. destruct Hin as [<- | Hin].
    + split; [now apply spec_mean_within | discriminate].
    + apply in_map_iff in Hin. destruct Hin as (ir & <- & _). simpl.
      split; [now apply spec_mean_within|].
      intros d Hd. injection Hd as <-.
      apply diff_within; now apply spec_mean_within.
Qed.

Lemma displayed_values_within_witness :
  float_within (inject_Z 0) (inject_Z 255)
    (label_mean (RegionLabel 2 "blue" (Fin (80 # 8)) (Some (Fin (640 # 64))))) /\
  (forall d,
     label_diff (RegionLabel 2 "blue" (Fin (80 # 8)) (Some (Fin (640 # 64)))) = Some d ->
     float_within 0 (inject_Z 255 - inject_Z 0) d).
Proof.
  apply (displayed_values_within scenario_mismatch scenario_image 0 255).
  - unfold scenario_mismatch. apply run_reachable, reach_init.
  - reflexivity.
  - repeat constructor; lia.
  - vm_compute. right. left. reflexivity.
Defined.

(** ** Regions without area *)

Lemma shape_nonneg (a : ndarray) : 0 <= shape0 a /\ 0 <= shape1 a.
Proof. unfold shape0, shape1. lia. Qed.

(** A region stored for a press and a release on the same column or on the
    same row, at a non-negative coordinate, has no pixel. *)
Lemma stored_region_no_area (a : ndarray) (px py x y : Z) (color : string)
      (cur : positive) :
  (x = px /\ 0 <= px) \/ (y = py /\ 0 <= py) ->
  spec_mean a (stored_region px py x y color cur) = NaN.
Proof.
  intros H. destruct (shape_nonneg a) as (H0 & H1).
  rewrite (spec_mean_stored a _ (Z.min px x) (Z.min py y) (Z.max px x) (Z.max py y))
    by reflexivity.
  unfold slice2. destruct H as [(-> & Hp) | (-> & Hp)].
  - apply np_mean_no_columns; lia.
  - rewrite (py_slice_nil a) by lia. reflexivity.
Qed.

(** X10. A click, or a drag that ends on the column or on the row where it
    began, at a non-negative coordinate, is stored like any other region (no
    minimum size is asked for). With an image loaded the region has no pixel:
    as the first region it makes the reference mean NaN; as a later region its
    label shows the mean NaN and the difference NaN. *)
Theorem region_without_area_is_stored (s : app) (im : Image) (cur : positive)
        (px py x y : Z) :
  reachable s -> image s = Some im -> current_rect s = Some cur ->
  start_x s = Some (canvasx px) -> start_y s = Some (canvasy py) ->
  (x = px /\ 0 <= px) \/ (y = py /\ 0 <= py) ->
  exists (s' : app) (color : string),
    on_release x y s = Ok tt s' /\
    rectangles s' = rectangles s ++ [stored_region px py x y color cur] /\
    match rectangles s with
    | [] => reference_avg s' = Some NaN /\ results_frame s' = [ReferenceLabel NaN]
    | _ :: _ =>
        In (RegionLabel (length (rectangles s) + 1) color NaN (Some NaN))
           (results_frame s')
    end.
Proof.
  intros Hreach Him Hcur Hx Hy Hline. pose proof (reachable_inv s Hreach) as I.
  destruct (on_release_draft x y s cur I Hcur)
    as (px' & py' & color & mid & s' & Hx' & Hy' & _ & Hrun & _ & _ & _ & _ & Hrs & _
        & _ & Him' & _).
  assert (Epx : px' = px).
  { rewrite Hx in Hx'. unfold canvasx, inject_Z in Hx'. congruence. }
  assert (Epy : py' = py).
  { rewrite Hy in Hy'. unfold canvasy, inject_Z in Hy'. congruence. }
  subst px' py'.
  exists s', color. split; [exact Hrun|]. split; [exact Hrs|].
  assert (Hreach' : reachable s').
  { replace s' with (state_of (handle (ButtonRelease x y) s))
      by (simpl; now rewrite Hrun).
    now constructor. }
  pose proof (reachable_display s' Hreach') as D. unfold display_current in D.
  rewrite Him', Him, Hrs in D.
  pose proof (stored_region_no_area im px py x y color cur Hline) as Hnan.
  destruct (rectangles s) as [|r0 rs]; simpl in D.
  - rewrite Hnan in D. exact D.
  - destruct D as (_ & D). rewrite D. right.
    apply in_map_iff. exists (S (length rs), stored_region px py x y color cur).
    split.
    + unfold region_label. simpl fst. simpl snd. rewrite Hnan.
      simpl. now rewrite Nat.add_1_r.
    + assert (Hnth : nth_error (rs ++ [stored_region px py x y color cur]) (length rs)
                     = Some (stored_region px py x y color cur)).
      { rewrite nth_error_app2 by lia. now rewrite Nat.sub_diag. }
      pose proof (nth_error_enumerate_from _ 1%nat _ _ Hnth) as Hin.
      exact Hin.
Qed.

Lemma region_without_area_is_stored_witness :
  exists (s' : app) (color : string),
    on_release 4 4 (run (scenario_reference ++ [ButtonPress 4 1]) init) = Ok tt s' /\
    rectangles s' =
      rectangles (run (scenario_reference ++ [ButtonPress 4 1]) init) ++
      [stored_region 4 1 4 4 color 4%positive] /\
    match rectangles (run (scenario_reference ++ [ButtonPress 4 1]) init) with
    | [] => reference_avg s' = Some NaN /\ results_frame s' = [ReferenceLabel NaN]
    | _ :: _ =>
        In (RegionLabel
              (length (rectangles (run (scenario_reference ++ [ButtonPress 4 1]) init)) + 1)
              color NaN (Some NaN))
           (results_frame s')
    end.
Proof.
  apply (region_without_area_is_stored
           (run (scenario_reference ++ [ButtonPress 4 1]) init) scenario_image
           4%positive 4 1 4 4).
  - apply run_reachable, reach_init.
  - reflexivity.
  - reflexivity.
  - reflexivity.
  - reflexivity.
  - left. split; [reflexivity | lia].
Defined.

(** * Properties of the program with float64 arithmetic and lazy decoding *)

Module RefinedFacts.

Import Refined.

Ltac run_refined :=
  unfold bind, ret, get, modify, raise, need, current_color, create_rectangle,
    np_array, PhotoImage, state_of; simpl.

(** ** [update_averages] *)

(** Without an image or without a region it removes the labels and returns
    (line 143). *)
Lemma update_averages_idle (s : app) :
  image s = None \/ rectangles s = [] ->
  update_averages s = Ok tt (set_results_frame [] s).
Proof.
  intros H. unfold update_averages. run_refined.
  destruct H as [H | H]; rewrite H; [reflexivity|]. now destruct (image s).
Qed.

(** With an image that decodes it runs the analysis on the array. *)
Lemma update_averages_decoded (s : app) (a : ndarray) :
  image s = Some (Decoded a) -> rectangles s <> [] ->
  update_averages s = Ok tt (analysis a s).
Proof.
  intros Him Hne. unfold update_averages, analysis. run_refined. rewrite Him.
  destruct (rectangles s); [contradiction | reflexivity].
Qed.

(** With an image that cannot be decoded it raises at line 146, the labels
    removed and nothing else done. *)
Lemma update_averages_truncated (s : app) :
  image s = Some Truncated -> rectangles s <> [] ->
  update_averages s = Raise OSError (set_results_frame [] s).
Proof.
  intros Him Hne. unfold update_averages. run_refined. rewrite Him.
  destruct (rectangles s); [contradiction | reflexivity].
Qed.

Lemma refined_frame_refl (s : app) : frame s s.
Proof. unfold frame. repeat split. reflexivity. Qed.

Lemma refined_frame_trans (s1 s2 s3 : app) :
  frame s1 s2 -> frame s2 s3 -> frame s1 s3.
Proof.
  unfold frame.
  intros (A1 & A2 & A3 & A4 & A5 & A6 & A7 & A8) (B1 & B2 & B3 & B4 & B5 & B6 & B7 & B8).
  repeat split; try congruence. now apply Pos.le_trans with (next_id (canvas s2)).
Qed.

Lemma iteration_spec (a : ndarray) (s : app) (ir : nat * rect) :
  let s' := region_iteration a s ir in
  frame s s' /\
  reference_avg s' = reference_avg s /\
  (if is_reference s (snd ir) then s' = s
   else
     results_frame s' = results_frame s ++ [region_label a (reference_avg s) ir] /\
     drawn s' = drawn s ++
       match reference_avg s with
       | Some ref => [region_marker a ref ir]
       | None => []
       end).
Proof.
  unfold region_iteration, is_reference.
  destruct (is_reference_id (r_id (snd ir)) (reference_rect_id s)); simpl.
  - split; [apply refined_frame_refl | split; reflexivity].
  - unfold region_label, region_marker, spec_mean, spec_clamp, bounds, drawn.
    destruct (reference_avg s) as [ref|] eqn:Eref; simpl.
    + destruct (flt _ _); simpl.
      * repeat split; try reflexivity; try (simpl; lia);
          try assumption; now rewrite map_app.
      * repeat split; try reflexivity; try (simpl; lia);
          try assumption; now rewrite map_app.
    + repeat split; try reflexivity; try assumption.
      now rewrite app_nil_r.
Qed.

Lemma refined_is_reference_frame (s s' : app) (r : rect) :
  frame s s' -> is_reference s' r = is_reference s r.
Proof.
  intros (_ & _ & _ & _ & _ & _ & H & _). unfold is_reference. now rewrite H.
Qed.

Lemma loop_spec (a : ndarray) (irs : list (nat * rect)) :
  forall s : app,
    let s' := fold_left (region_iteration a) irs s in
    let kept := filter (fun ir => negb (is_reference s (snd ir))) irs in
    frame s s' /\
    reference_avg s' = reference_avg s /\
    results_frame s' = results_frame s ++ map (region_label a (reference_avg s)) kept /\
    drawn s' = drawn s ++
      match reference_avg s with
      | Some ref => map (region_marker a ref) kept
      | None => []
      end.
Proof.
  induction irs as [|ir irs IH]; intros s; simpl.
  - repeat split; try reflexivity; try apply refined_frame_refl.
    + now rewrite app_nil_r.
    + destruct (reference_avg s); now rewrite app_nil_r.
  - destruct (iteration_spec a s ir) as (Hf & Hr & Hstep).
    destruct (IH (region_iteration a s ir)) as (Hf' & Hr' & Hl & Hd).
    assert (Hkept :
      filter (fun ir0 => negb (is_reference (region_iteration a s ir) (snd ir0))) irs =
      filter (fun ir0 => negb (is_reference s (snd ir0))) irs).
    { apply filter_ext. intros ir0. f_equal. now apply refined_is_reference_frame. }
    rewrite Hkept, Hr in Hl, Hd.
    split; [now apply refined_frame_trans with (region_iteration a s ir)|].
    split; [congruence|].
    destruct (is_reference s (snd ir)); simpl.
    + rewrite Hstep in Hl, Hd |- *. now split.
    + destruct Hstep as (Hl1 & Hd1). rewrite Hl, Hd, Hl1, Hd1.
      rewrite <- !app_assoc. split; [reflexivity|].
      destruct (reference_avg s); reflexivity.
Qed.

Lemma block_spec (a : ndarray) (s : app) :
  let s' := reference_block a s in
  frame s s' /\
  drawn s' = drawn s /\
  match reference_region s with
  | Some ref_rect =>
      reference_avg s' = Some (spec_mean a ref_rect) /\
      results_frame s' = results_frame s ++ [ReferenceLabel (spec_mean a ref_rect)]
  | None =>
      reference_avg s' = reference_avg s /\ results_frame s' = results_frame s
  end.
Proof.
  unfold reference_block, reference_region.
  destruct (reference_rect_id s) as [ref_id|].
  - destruct (find _ (rectangles s)) as [ref_rect|].
    + repeat split; simpl; lia.
    + repeat split; simpl; lia.
  - repeat split; simpl; lia.
Qed.

(** The analysis of a store on the array of the image. *)
Lemma analysis_spec (s : app) (a : ndarray) :
  let s' := analysis a s in
  frame s s' /\
  reference_avg s' =
    match reference_region s with
    | Some ref_rect => Some (spec_mean a ref_rect)
    | None => reference_avg s
    end /\
  results_frame s' =
    match reference_region s with
    | Some ref_rect => [ReferenceLabel (spec_mean a ref_rect)]
    | None => []
    end ++ map (region_label a (reference_avg s')) (non_reference s) /\
  drawn s' = drawn s ++
    match reference_avg s' with
    | Some ref => map (region_marker a ref) (non_reference s)
    | None => []
    end.
Proof.
  unfold analysis. cbv zeta.
  set (s0 := set_results_frame [] s).
  assert (F0 : frame s s0) by (unfold frame; repeat split; reflexivity).
  destruct (block_spec a s0) as (F1 & D1 & Href).
  set (s1 := reference_block a s0) in *.
  destruct (loop_spec a (enumerate (rectangles s1)) s1) as (F2 & R2 & L2 & D2).
  cbv zeta in F2, R2, L2, D2.
  assert (F01 : frame s s1) by (now apply refined_frame_trans with s0).
  assert (Hnon : filter (fun ir => negb (is_reference s1 (snd ir)))
                        (enumerate (rectangles s1)) = non_reference s).
  { unfold non_reference. destruct F01 as (_ & -> & _).
    apply filter_ext. intros ir. f_equal.
    apply refined_is_reference_frame. now apply refined_frame_trans with s0. }
  rewrite Hnon in L2, D2. rewrite R2.
  split; [now apply refined_frame_trans with s1|].
  assert (Hreg : reference_region s0 = reference_region s) by reflexivity.
  rewrite Hreg in Href.
  rewrite L2, D2, D1. change (drawn s0) with (drawn s).
  destruct (reference_region s) as [ref_rect|]; destruct Href as (Ha & Hl);
    rewrite Ha, Hl; repeat split; reflexivity.
Qed.

Arguments analysis : simpl never.

Lemma refined_region_labels (s : app) (a : ndarray) :
  region_labels (analysis a s) =
  map (region_label a (reference_avg (analysis a s))) (non_reference s).
Proof.
  destruct (analysis_spec s a) as (_ & _ & Hl & _).
  unfold region_labels. rewrite Hl, filter_app.
  replace (filter _ (match reference_region s with
                     | Some ref_rect => [ReferenceLabel (spec_mean a ref_rect)]
                     | None => []
                     end)) with (@nil label)
    by (now destruct (reference_region s)).
  simpl. clear Hl. induction (non_reference s) as [|ir irs IH]; [reflexivity|].
  simpl. now rewrite IH.
Qed.

Lemma refined_drawn_since (s s' : app) (l : list item) :
  drawn s' = drawn s ++ l -> drawn_since s s' = l.
Proof.
  intros H. unfold drawn_since. rewrite H. clear H.
  induction (drawn s) as [|x xs IH]; [reflexivity | exact IH].
Qed.

Lemma shown_refined_marker (a : ndarray) (ref : float64) (ir : nat * rect) :
  shown (region_marker a ref ir) =
  if flt (fabs (fsub (spec_mean a (snd ir)) ref)) (of_Z 3)
  then Some MATCH else Some MISMATCH.
Proof.
  unfold region_marker.
  destruct (spec_clamp _ _ _) as [[[x1 y1] x2] y2].
  now destruct (flt _ _).
Qed.

(** ** The threshold *)

(** At the threshold the float64 arithmetic decides: with the means 7/3 and
    16/3 the computed difference is the float just below 3, and the region is
    MATCH; with the means 11/3 and 2/3 the computed difference is 3.0, and
    the region is MISMATCH. *)
Example threshold_scenarios :
  map shown (drawn (run (halves thirds_image) init)) =
    [None; None; None; None; Some MATCH] /\
  map shown (drawn (run (halves thirds_image') init)) =
    [None; None; None; None; Some MISMATCH] /\
  fabs (fsub (fdiv (of_Z 7) (of_Z 3)) (fdiv (of_Z 16) (of_Z 3))) = SFpred prec emax (of_Z 3) /\
  fabs (fsub (fdiv (of_Z 11) (of_Z 3)) (fdiv (of_Z 2) (of_Z 3))) = of_Z 3.
Proof. repeat split. Qed.

(** C2. For every non-reference region, when the image decodes and a
    reference mean is available, [update_averages] returns, the difference on
    the region's label is the float64 abs(mean - reference mean), and the
    marker put on the canvas is MATCH exactly when that difference is below
    3.0 in float64, MISMATCH otherwise; a difference equal to 3.0 is MISMATCH,
    and the float just below 3.0 is MATCH. *)
Theorem match_iff_computed_diff_below_three (s : app) (a : ndarray) (ref : float64)
        (k : nat) (ir : nat * rect) :
  image s = Some (Decoded a) -> rectangles s <> [] ->
  reference_avg (state_of (update_averages s)) = Some ref ->
  nth_error (non_reference s) k = Some ir ->
  exists (s' : app) (avg diff : float64) (marker : item),
    update_averages s = Ok tt s' /\
    nth_error (region_labels s') k =
      Some (RegionLabel (fst ir + 1) (r_color (snd ir)) avg (Some diff)) /\
    nth_error (drawn_since s s') k = Some marker /\
    diff = fabs (fsub avg ref) /\
    (shown marker = Some MATCH \/ shown marker = Some MISMATCH) /\
    (shown marker = Some MATCH <-> flt diff (of_Z 3) = true) /\
    (diff = of_Z 3 -> shown marker = Some MISMATCH) /\
    (diff = SFpred prec emax (of_Z 3) -> shown marker = Some MATCH).
Proof.
  intros Him Hne Href Hk.
  rewrite (update_averages_decoded s a Him Hne) in Href |- *. simpl in Href.
  destruct (analysis_spec s a) as (_ & _ & _ & Hd).
  exists (analysis a s), (spec_mean a (snd ir)),
         (fabs (fsub (spec_mean a (snd ir)) ref)), (region_marker a ref ir).
  split; [reflexivity|]. split.
  { rewrite refined_region_labels, Href.
    exact (map_nth_error (region_label a (Some ref)) _ _ Hk). }
  split.
  { rewrite Href in Hd. rewrite (refined_drawn_since _ _ _ Hd).
    exact (map_nth_error (region_marker a ref) _ _ Hk). }
  split; [reflexivity|].
  rewrite shown_refined_marker.
  destruct (flt _ _) eqn:E.
  - split; [now left|]. split; [tauto|]. split; [|reflexivity].
    intros H3. rewrite H3 in E. discriminate E.
  - split; [now right|]. split; [split; discriminate|]. split; [reflexivity|].
    intros Hp. rewrite Hp in E. discriminate E.
Qed.

Lemma match_iff_computed_diff_below_three_witness :
  exists (s' : app) (avg diff : float64) (marker : item),
    update_averages (run (halves thirds_image) init) = Ok tt s' /\
    nth_error (region_labels s') 0 = Some (RegionLabel (1 + 1) "blue" avg (Some diff)) /\
    nth_error (drawn_since (run (halves thirds_image) init) s') 0 = Some marker /\
    diff = fabs (fsub avg (fdiv (of_Z 7) (of_Z 3))) /\
    (shown marker = Some MATCH \/ shown marker = Some MISMATCH) /\
    (shown marker = Some MATCH <-> flt diff (of_Z 3) = true) /\
    (diff = of_Z 3 -> shown marker = Some MISMATCH) /\
    (diff = SFpred prec emax (of_Z 3) -> shown marker = Some MATCH).
Proof.
  apply (match_iff_computed_diff_below_three (run (halves thirds_image) init)
           [[[2]; [2]; [3]; [5]; [5]; [6]]] (fdiv (of_Z 7) (of_Z 3)) 0%nat
           (1%nat, mkrect 3 0 6 1 "blue" 4%positive)).
  - reflexivity.
  - discriminate.
  - reflexivity.
  - reflexivity.
Defined.

(** ** The callbacks, written out *)

Arguments update_averages : simpl never.

Lemma clear_rectangles_run (s : app) : clear_rectangles s = Ok tt (cleared s).
Proof.
  unfold clear_rectangles. run_refined.
  rewrite update_averages_idle by (right; reflexivity). reflexivity.
Qed.

Lemma load_image_decoded (a : ndarray) (s : app) :
  load_image (Opens (Decoded a)) s =
  Ok tt (cleared (set_canvas (snd (canvas_create (canvas s) (image_item 0 0)))
                             (set_image (Some (Decoded a)) s))).
Proof.
  unfold load_image. run_refined.
  match goal with |- context [clear_rectangles ?m] => rewrite (clear_rectangles_run m) end.
  reflexivity.
Qed.

(** A file that opens and cannot be decoded: the image is replaced (line
    71), [PhotoImage] raises (line 72), and the store, the labels and the
    reference mean stay as they were. *)
Lemma load_image_truncated (s : app) :
  load_image (Opens Truncated) s = Raise OSError (set_image (Some Truncated) s).
Proof. reflexivity. Qed.

Lemma release_no_draft (x y : Z) (s : app) :
  current_rect s = None -> on_release x y s = Ok tt s.
Proof. intros H. unfold on_release. run_refined. now rewrite H. Qed.

Lemma release_run (x y : Z) (s : app) (cur : positive) (sx sy : Q) (color : string) :
  current_rect s = Some cur ->
  start_x s = Some sx -> start_y s = Some sy ->
  nth_error colors (current_color_index s) = Some color ->
  on_release x y s =
  match update_averages (release_store sx sy x y color cur s) with
  | Ok _ u =>
      Ok tt (set_current_color_index
               ((current_color_index u + 1) mod length colors)%nat u)
  | Raise e u => Raise e u
  end.
Proof.
  intros Hcur Hx Hy Hc. unfold on_release, release_store. run_refined.
  rewrite Hcur.
  destruct (rectangles s) as [|r0 rs] eqn:Hrs; run_refined;
    rewrite Hx, Hy; simpl; rewrite Hc; simpl; rewrite ?Hrs;
    match goal with |- context [update_averages ?m] => destruct (update_averages m) end;
    reflexivity.
Qed.

Lemma release_fields (sx sy : Q) (x y : Z) (color : string) (cur : positive) (s : app) :
  image (release_store sx sy x y color cur s) = image s /\
  rectangles (release_store sx sy x y color cur s) =
    rectangles s ++
      [mkrect (Qmin sx (canvasx x)) (Qmin sy (canvasy y))
              (Qmax sx (canvasx x)) (Qmax sy (canvasy y)) color cur] /\
  reference_rect_id (release_store sx sy x y color cur s) =
    match rectangles s with
    | [] => Some cur
    | _ :: _ => reference_rect_id s
    end /\
  reference_avg (release_store sx sy x y color cur s) = reference_avg s /\
  current_rect (release_store sx sy x y color cur s) = None /\
  current_color_index (release_store sx sy x y color cur s) = current_color_index s /\
  start_x (release_store sx sy x y color cur s) = start_x s /\
  start_y (release_store sx sy x y color cur s) = start_y s /\
  (next_id (canvas s) <= next_id (canvas (release_store sx sy x y color cur s)))%positive.
Proof.
  unfold release_store. destruct (rectangles s) eqn:Hrs; simpl; rewrite ?Hrs;
    repeat split; lia.
Qed.

Lemma press_run (x y : Z) (s : app) (color : string) :
  nth_error colors (current_color_index s) = Some color ->
  exists c : Canvas,
    (next_id (canvas s) <= next_id c)%positive /\
    on_press x y s =
    Ok tt (set_current_rect (Some (next_id c))
             (set_canvas
                (snd (canvas_create c
                        (rectangle_item (canvasx x) (canvasy y) (canvasx x) (canvasy y)
                                        color)))
                (set_start (Some (canvasx x)) (Some (canvasy y)) s))).
Proof.
  intros Hc. unfold on_press. run_refined.
  destruct (current_rect s) as [cur|]; run_refined; rewrite Hc; simpl.
  - exists (canvas_delete (canvas s) cur). split; [simpl; lia | reflexivity].
  - exists (canvas s). split; [lia | reflexivity].
Qed.

Lemma drag_run (x y : Z) (s : app) (cur : positive) (sx sy : Q) :
  current_rect s = Some cur -> start_x s = Some sx -> start_y s = Some sy ->
  on_drag x y s =
  Ok tt (set_canvas (canvas_coords (canvas s) cur sx sy (canvasx x) (canvasy y)) s).
Proof.
  intros Hcur Hx Hy. unfold on_drag. run_refined. rewrite Hcur, Hx, Hy. reflexivity.
Qed.

Lemma drag_no_draft (x y : Z) (s : app) :
  current_rect s = None -> on_drag x y s = Ok tt s.
Proof. intros H. unfold on_drag. run_refined. now rewrite H. Qed.

(** ** The region store *)

Lemma refined_inv_init : store_inv init.
Proof.
  constructor; simpl;
    [constructor | constructor | intros cur H; discriminate H
    | reflexivity | constructor | lia].
Qed.

(** Whatever keeps the store and the draft and does not lower the id counter
    keeps the invariant. *)
Lemma refined_inv_same (s s' : app) :
  rectangles s' = rectangles s -> current_rect s' = current_rect s ->
  start_x s' = start_x s -> start_y s' = start_y s ->
  current_color_index s' = current_color_index s ->
  reference_rect_id s' = reference_rect_id s ->
  (next_id (canvas s) <= next_id (canvas s'))%positive ->
  store_inv s -> store_inv s'.
Proof.
  intros Hr Hc Hx Hy Hi Hid Hn [I1 I2 I3 I4 I5 I6].
  constructor; rewrite ?Hr, ?Hc, ?Hx, ?Hy, ?Hi, ?Hid; try assumption.
  - eapply Forall_impl; [|exact I1]. simpl. intros r Hlt. lia.
  - intros cur Hcur. destruct (I3 cur Hcur) as (Hlt & Hnot & Hst).
    repeat split; try assumption. lia.
Qed.

Lemma refined_inv_frame (s s' : app) : frame s s' -> store_inv s -> store_inv s'.
Proof.
  intros (_ & Hr & Hc & Hx & Hy & Hi & Hid & Hn). now apply refined_inv_same.
Qed.

Lemma draft_is_ready (s : app) (cur : positive) :
  store_inv s -> current_rect s = Some cur ->
  exists (px py : Z) (color : string),
    start_x s = Some (canvasx px) /\ start_y s = Some (canvasy py) /\
    nth_error colors (current_color_index s) = Some color.
Proof.
  intros I Hcur. destruct (inv_draft s I cur Hcur) as (_ & _ & px & py & Hx & Hy).
  destruct (color_in_range _ (inv_color s I)) as (color & Hc).
  now exists px, py, color.
Qed.

Arguments release_store : simpl never.

Lemma release_store_inv (px py x y : Z) (color : string) (cur : positive) (s : app) :
  store_inv s -> current_rect s = Some cur ->
  store_inv (release_store (canvasx px) (canvasy py) x y color cur s).
Proof.
  intros I Hcur.
  destruct (release_fields (canvasx px) (canvasy py) x y color cur s)
    as (_ & Mr & Mid & _ & Mc & Mi & _ & _ & Mn).
  destruct I as [I1 I2 I3 I4 I5 I6]. destruct (I3 cur Hcur) as (Hlt & Hnot & _).
  constructor.
  - rewrite Mr. apply Forall_app. split.
    + eapply Forall_impl; [|exact I1]. cbv beta. intros r Hr. lia.
    + constructor; [cbn [r_id]; lia | constructor].
  - rewrite Mr, map_app. cbn [map r_id]. apply NoDup_app.
    + exact I2.
    + constructor; [intros [] | constructor].
    + intros a Ha [<- | []]. now apply Hnot.
  - rewrite Mc. intros c H. discriminate H.
  - rewrite Mid, Mr. destruct (rectangles s) as [|r0 rs]; [reflexivity | exact I4].
  - rewrite Mr. apply Forall_app. split; [exact I5|].
    constructor; [|constructor]. unfold canvasx, canvasy.
    rewrite !Qmin_inject_Z, !Qmax_inject_Z.
    exists (Z.min px x), (Z.min py y), (Z.max px x), (Z.max py y).
    simpl. repeat split; lia.
  - now rewrite Mi.
Qed.

(** What a release with a draft does, by the image: with an image that
    decodes it analyses the new store and advances the colour; with no image
    it only advances the colour; with an image that cannot be decoded it
    raises at line 146, the region stored and the colour not advanced. *)
Lemma release_cases (x y : Z) (s : app) (cur : positive) :
  store_inv s -> current_rect s = Some cur ->
  exists (px py : Z) (color : string),
    start_x s = Some (canvasx px) /\ start_y s = Some (canvasy py) /\
    nth_error colors (current_color_index s) = Some color /\
    match image s with
    | Some (Decoded a) =>
        on_release x y s =
        Ok tt (set_current_color_index
                 ((current_color_index s + 1) mod length colors)%nat
                 (analysis a (release_store (canvasx px) (canvasy py) x y color cur s)))
    | Some Truncated =>
        on_release x y s =
        Raise OSError
          (set_results_frame [] (release_store (canvasx px) (canvasy py) x y color cur s))
    | None =>
        on_release x y s =
        Ok tt (set_current_color_index
                 ((current_color_index s + 1) mod length colors)%nat
                 (set_results_frame []
                    (release_store (canvasx px) (canvasy py) x y color cur s)))
    end.
Proof.
  intros I Hcur.
  destruct (draft_is_ready s cur I Hcur) as (px & py & color & Hx & Hy & Hc).
  exists px, py, color. repeat (split; [assumption|]).
  rewrite (release_run x y s cur _ _ color Hcur Hx Hy Hc).
  destruct (release_fields (canvasx px) (canvasy py) x y color cur s)
    as (Mi & Mr & _ & _ & _ & Midx & _).
  assert (Mne : rectangles (release_store (canvasx px) (canvasy py) x y color cur s) <> []).
  { rewrite Mr. now destruct (rectangles s). }
  destruct (image s) as [[a|]|] eqn:Him.
  - rewrite (update_averages_decoded _ a) by assumption.
    destruct (analysis_spec (release_store (canvasx px) (canvasy py) x y color cur s) a)
      as ((_ & _ & _ & _ & _ & Fi & _) & _).
    now rewrite Fi, Midx.
  - now rewrite update_averages_truncated by assumption.
  - rewrite update_averages_idle by (now left).
    cbn [current_color_index set_results_frame]. now rewrite Midx.
Qed.

Lemma release_inv (x y : Z) (s : app) :
  store_inv s -> store_inv (state_of (on_release x y s)).
Proof.
  intros I. destruct (current_rect s) as [cur|] eqn:Hcur.
  - destruct (release_cases x y s cur I Hcur) as (px & py & color & _ & _ & _ & Hrun).
    pose proof (release_store_inv px py x y color cur s I Hcur) as Imid.
    set (mid := release_store (canvasx px) (canvasy py) x y color cur s) in *.
    assert (Hidx : forall u, store_inv u ->
              store_inv (set_current_color_index
                           ((current_color_index s + 1) mod length colors)%nat u)).
    { intros u [U1 U2 U3 U4 U5 U6].
      constructor; [exact U1 | exact U2 | exact U3 | exact U4 | exact U5 |].
      cbn [current_color_index set_current_color_index].
      apply Nat.mod_upper_bound. discriminate. }
    destruct (image s) as [[a|]|]; rewrite Hrun; unfold state_of.
    + apply Hidx. apply refined_inv_frame with mid; [|exact Imid].
      apply (analysis_spec mid a).
    + apply refined_inv_same with mid; try reflexivity; try exact Imid;
        try apply Pos.le_refl.
    + apply Hidx. apply refined_inv_same with mid; try reflexivity; try exact Imid;
        try apply Pos.le_refl.
  - rewrite release_no_draft by assumption. exact I.
Qed.

Lemma press_inv (x y : Z) (s : app) :
  store_inv s ->
  (exists s', on_press x y s = Ok tt s') /\ store_inv (state_of (on_press x y s)).
Proof.
  intros [I1 I2 I3 I4 I5 I6].
  destruct (color_in_range _ I6) as (color & Hc).
  destruct (press_run x y s color Hc) as (c & Hle & Hrun).
  rewrite Hrun. split; [eexists; reflexivity|]. unfold state_of.
  constructor; simpl; try assumption.
  - eapply Forall_impl; [|exact I1]. simpl. intros r Hlt. lia.
  - intros cur' Hcur'. injection Hcur' as <-.
    split; [lia|]. split; [|now exists x, y].
    intros Hin. apply in_map_iff in Hin. destruct Hin as (r & Hr & Hin).
    rewrite Forall_forall in I1. specialize (I1 r Hin). lia.
Qed.

Lemma drag_inv (x y : Z) (s : app) :
  store_inv s ->
  (exists s', on_drag x y s = Ok tt s') /\ store_inv (state_of (on_drag x y s)).
Proof.
  intros I. destruct (current_rect s) as [cur|] eqn:Hcur.
  - destruct (draft_is_ready s cur I Hcur) as (px & py & color & Hx & Hy & _).
    rewrite (drag_run x y s cur _ _ Hcur Hx Hy).
    split; [eexists; reflexivity|]. unfold state_of.
    apply refined_inv_same with s; try reflexivity; try exact I;
      try apply Pos.le_refl.
  - rewrite drag_no_draft by assumption. split; [now exists s | exact I].
Qed.

Lemma cleared_inv (s : app) : store_inv s -> store_inv (cleared s).
Proof.
  intros [I1 I2 I3 I4 I5 I6].
  constructor; simpl;
    [constructor | constructor | | reflexivity | constructor | assumption].
  intros cur Hcur. destruct (I3 cur Hcur) as (Hlt & _ & Hst).
  rewrite next_id_delete_all. repeat split; [exact Hlt | intros [] | exact Hst].
Qed.

Lemma load_inv (f : chosen_file) (s : app) :
  store_inv s -> store_inv (state_of (load_image f s)).
Proof.
  intros I. destruct f as [| |[a|]]; try exact I.
  - rewrite load_image_decoded. unfold state_of. apply cleared_inv.
    apply refined_inv_same with s; try reflexivity; try exact I;
      try (simpl; lia).
  - rewrite load_image_truncated. unfold state_of.
    apply refined_inv_same with s; try reflexivity; try exact I;
      try apply Pos.le_refl.
Qed.

Lemma refined_handle_inv (e : event) (s : app) :
  store_inv s -> store_inv (state_of (handle e s)).
Proof.
  intros I. destruct e as [f|x y|x y|x y|]; unfold handle.
  - now apply load_inv.
  - now apply press_inv.
  - now apply drag_inv.
  - now apply release_inv.
  - rewrite clear_rectangles_run. unfold state_of. now apply cleared_inv.
Qed.

Lemma refined_reachable_inv (s : app) : reachable s -> store_inv s.
Proof.
  induction 1 as [|s e _ IH]; [apply refined_inv_init | now apply refined_handle_inv].
Qed.

Lemma refined_run_reachable (es : list event) (s : app) :
  reachable s -> reachable (run es s).
Proof.
  revert s. induction es as [|e es IH]; intros s Hs; [exact Hs|].
  simpl. apply IH. now constructor.
Qed.

(** ** The panel follows the store *)

(** In a store that satisfies the invariant the reference region is the
    first one and the loop handles all the others. *)
Lemma refined_store_head (s : app) (r0 : rect) (rs : list rect) :
  store_inv s -> rectangles s = r0 :: rs ->
  reference_region s = Some r0 /\ non_reference s = tl (enumerate (rectangles s)).
Proof.
  intros I Hrs.
  pose proof (inv_ids_distinct s I) as Hnd.
  pose proof (inv_reference s I) as Hid.
  rewrite Hrs in Hid, Hnd. cbn [hd_error option_map] in Hid. clear I. split.
  - unfold reference_region. rewrite Hid, Hrs. simpl. now rewrite Pos.eqb_refl.
  - unfold non_reference, is_reference, enumerate. rewrite Hid, Hrs. simpl.
    rewrite Pos.eqb_refl. simpl.
    simpl in Hnd. inversion Hnd as [|? ? Hnot _]; subst.
    generalize 1%nat. clear Hnd Hrs Hid.
    induction rs as [|r rs IH]; intros k; [reflexivity|]. simpl.
    destruct (Pos.eqb (r_id r) (r_id r0)) eqn:E.
    + apply Pos.eqb_eq in E. exfalso. apply Hnot. left. now rewrite E.
    + simpl. f_equal. apply IH. intros Hin. apply Hnot. now right.
Qed.

(** The analysis of a non-empty store that satisfies the invariant. *)
Lemma analysis_display (s : app) (a : ndarray) (r0 : rect) (rs : list rect) :
  store_inv s -> rectangles s = r0 :: rs ->
  reference_avg (analysis a s) = Some (spec_mean a r0) /\
  results_frame (analysis a s) =
    ReferenceLabel (spec_mean a r0) ::
    map (region_label a (Some (spec_mean a r0))) (tl (enumerate (rectangles s))) /\
  drawn (analysis a s) =
    drawn s ++ map (region_marker a (spec_mean a r0)) (tl (enumerate (rectangles s))).
Proof.
  intros I Hrs.
  destruct (analysis_spec s a) as (_ & Ha & Hl & Hd).
  destruct (refined_store_head s r0 rs I Hrs) as (Href & Hnon).
  rewrite Href in Ha, Hl. rewrite Hnon in Hl, Hd. rewrite Ha in Hl, Hd.
  repeat split; assumption.
Qed.

Lemma refined_display_ext (s s' : app) :
  image s' = image s -> rectangles s' = rectangles s ->
  reference_avg s' = reference_avg s -> results_frame s' = results_frame s ->
  display_current s -> display_current s'.
Proof.
  intros H1 H2 H3 H4. unfold display_current. now rewrite H1, H2, H3, H4.
Qed.

Lemma refined_reachable_display (s : app) : reachable s -> display_current s.
Proof.
  induction 1 as [|s e Hreach IH]; [split; reflexivity|].
  pose proof (refined_reachable_inv s Hreach) as I.
  destruct e as [f|x y|x y|x y|]; unfold handle.
  - destruct f as [| |[a|]]; try exact IH.
    + rewrite load_image_decoded. unfold state_of. split; reflexivity.
    + rewrite load_image_truncated. unfold state_of.
      unfold display_current in *. cbn [image rectangles set_image reference_avg results_frame].
      destruct (rectangles s) as [|r0 rs0]; [|trivial].
      destruct (image s) as [[|]|]; exact IH.
  - destruct (color_in_range _ (inv_color s I)) as (color & Hc).
    destruct (press_run x y s color Hc) as (c & _ & Hrun). rewrite Hrun. unfold state_of.
    apply refined_display_ext with s; try reflexivity. exact IH.
  - destruct (current_rect s) as [cur|] eqn:Hcur.
    + destruct (draft_is_ready s cur I Hcur) as (px & py & color & Hx & Hy & _).
      rewrite (drag_run x y s cur _ _ Hcur Hx Hy). unfold state_of.
      apply refined_display_ext with s; try reflexivity. exact IH.
    + rewrite drag_no_draft by assumption. exact IH.
  - destruct (current_rect s) as [cur|] eqn:Hcur.
    + destruct (release_cases x y s cur I Hcur) as (px & py & color & _ & _ & _ & Hrun).
      pose proof (release_store_inv px py x y color cur s I Hcur) as Imid.
      destruct (release_fields (canvasx px) (canvasy py) x y color cur s)
        as (Mi & Mr & _ & Ma & _).
      set (mid := release_store (canvasx px) (canvasy py) x y color cur s) in *.
      destruct (rectangles mid) as [|m0 ms] eqn:Hmid;
        [destruct (rectangles s); discriminate Mr|].
      destruct (image s) as [[a|]|] eqn:Him; rewrite Hrun; unfold state_of.
      * destruct (analysis_spec mid a) as ((Fi & Fr & _) & _).
        destruct (analysis_display mid a m0 ms Imid Hmid) as (Ha & Hl & _).
        unfold display_current.
        cbn [image rectangles reference_avg results_frame set_current_color_index].
        rewrite Fi, Fr, Mi, Hmid. rewrite Hmid in Hl. now split.
      * unfold display_current.
        cbn [image rectangles set_results_frame].
        now rewrite Mi, Hmid.
      * unfold display_current.
        cbn [image rectangles reference_avg results_frame set_results_frame
             set_current_color_index].
        rewrite Mi, Ma. split; [|reflexivity].
        unfold display_current in IH. rewrite Him in IH. apply IH.
    + rewrite release_no_draft by assumption. exact IH.
  - rewrite clear_rectangles_run. unfold state_of, display_current. simpl.
    destruct (image s) as [[|]|]; split; reflexivity.
Qed.

(** A file that opens and cannot be decoded leaves the panel of the image
    before it: the labels of [thirds_image] stay while the image is the new
    one. *)
Example panel_after_truncated_load :
  image after_truncated_load = Some Truncated /\
  results_frame after_truncated_load = [ReferenceLabel (fdiv (of_Z 7) (of_Z 3))] /\
  reference_avg after_truncated_load = Some (fdiv (of_Z 7) (of_Z 3)).
Proof. repeat split. Qed.

(** X5. In every state the program can be in, whenever the image decodes,
    the panel and the reference mean are those of the current store and
    image: with a non-empty store, the reference label with the mean of the
    first region and then, for every other region in store order, a label
    numbered by its position with its mean and its float64 difference from
    the reference mean; with no image or an empty store, no label and no
    reference mean. *)
Theorem panel_shows_analysis_of_decoded_image (s : app) :
  reachable s ->
  (forall (a : ndarray) (r0 : rect) (rs : list rect),
     image s = Some (Decoded a) -> rectangles s = r0 :: rs ->
     reference_avg s = Some (spec_mean a r0) /\
     results_frame s =
       ReferenceLabel (spec_mean a r0) ::
       map (fun ir =>
              RegionLabel (fst ir + 1) (r_color (snd ir)) (spec_mean a (snd ir))
                (Some (fabs (fsub (spec_mean a (snd ir)) (spec_mean a r0)))))
           (tl (enumerate (rectangles s)))) /\
  (image s = None \/ rectangles s = [] ->
   reference_avg s = None /\ results_frame s = []).
Proof.
  intros Hreach. pose proof (refined_reachable_display s Hreach) as D.
  unfold display_current in D. split.
  - intros a r0 rs Him Hrs. rewrite Him, Hrs in D. rewrite Hrs. exact D.
  - intros [Hn | Hn].
    + now rewrite Hn in D.
    + rewrite Hn in D. now destruct (image s) as [[|]|].
Qed.

Lemma panel_shows_analysis_of_decoded_image_witness :
  (forall (a : ndarray) (r0 : rect) (rs : list rect),
     image (run (halves thirds_image) init) = Some (Decoded a) ->
     rectangles (run (halves thirds_image) init) = r0 :: rs ->
     reference_avg (run (halves thirds_image) init) = Some (spec_mean a r0) /\
     results_frame (run (halves thirds_image) init) =
       ReferenceLabel (spec_mean a r0) ::
       map (fun ir =>
              RegionLabel (fst ir + 1) (r_color (snd ir)) (spec_mean a (snd ir))
                (Some (fabs (fsub (spec_mean a (snd ir)) (spec_mean a r0)))))
           (tl (enumerate (rectangles (run (halves thirds_image) init))))) /\
  (image (run (halves thirds_image) init) = None \/
   rectangles (run (halves thirds_image) init) = [] ->
   reference_avg (run (halves thirds_image) init) = None /\
   results_frame (run (halves thirds_image) init) = []).
Proof.
  apply (panel_shows_analysis_of_decoded_image (run (halves thirds_image) init)).
  apply refined_run_reachable, reach_init.
Defined.

(** ** Exceptions *)

(** X1. In every state the program can be in, a callback raises in three
    cases only. [load_image] on a file that [Image.open] refuses raises and
    leaves the state as it was. [load_image] on a file that opens and cannot
    be decoded raises at line 72 with the image already replaced and
    everything else as it was. [on_release] with a draft, while the image is
    one that cannot be decoded, raises at line 146: the region is stored and
    the draft given up, the labels are removed, and the reference mean and
    the colour index are not updated. In every other case the callback
    returns, whatever the event coordinates. *)
Theorem callbacks_raise_only_on_unreadable_files (s : app) (e : event) :
  reachable s ->
  match e with
  | LoadImage Unopenable => handle e s = Raise OSError s
  | LoadImage (Opens Truncated) =>
      handle e s = Raise OSError (set_image (Some Truncated) s)
  | ButtonRelease x y =>
      match current_rect s, image s with
      | Some cur, Some Truncated =>
          exists (r : rect) (s' : app),
            handle e s = Raise OSError s' /\
            rectangles s' = rectangles s ++ [r] /\
            r_id r = cur /\
            current_rect s' = None /\
            results_frame s' = [] /\
            reference_avg s' = reference_avg s /\
            current_color_index s' = current_color_index s
      | _, _ => exists s', handle e s = Ok tt s'
      end
  | _ => exists s', handle e s = Ok tt s'
  end.
Proof.
  intros Hreach. pose proof (refined_reachable_inv s Hreach) as I.
  destruct e as [f|x y|x y|x y|].
  - destruct f as [| |[a|]].
    + now exists s.
    + reflexivity.
    + eexists. apply load_image_decoded.
    + reflexivity.
  - apply (press_inv x y s I).
  - apply (drag_inv x y s I).
  - unfold handle. destruct (current_rect s) as [cur|] eqn:Hcur.
    + destruct (release_cases x y s cur I Hcur) as (px & py & color & _ & _ & _ & Hrun).
      destruct (release_fields (canvasx px) (canvasy py) x y color cur s)
        as (_ & Mr & _ & Ma & Mc & Midx & _).
      destruct (image s) as [[a|]|].
      * eexists. exact Hrun.
      * eexists _, _. split; [exact Hrun|].
        cbn [rectangles current_rect results_frame reference_avg current_color_index
             set_results_frame].
        split; [exact Mr|]. repeat split; assumption.
      * eexists. exact Hrun.
    + destruct (image s) as [[|]|]; exists s; now apply release_no_draft.
  - eexists. apply clear_rectangles_run.
Qed.

Lemma callbacks_raise_only_on_unreadable_files_witness :
  exists (r : rect) (s' : app),
    on_release 6 1 after_truncated_load = Raise OSError s' /\
    rectangles s' = rectangles after_truncated_load ++ [r] /\
    r_id r = 4%positive /\
    current_rect s' = None /\
    results_frame s' = [] /\
    reference_avg s' = reference_avg after_truncated_load /\
    current_color_index s' = current_color_index after_truncated_load.
Proof.
  apply (callbacks_raise_only_on_unreadable_files after_truncated_load (ButtonRelease 6 1)).
  apply refined_run_reachable, reach_init.
Defined.

(** ** One region for one press *)

(** X12. A release uses the draft up whether it returns or raises: after
    it there is no draft and at most one more region, so a second release,
    wherever it is, returns without storing a region or changing anything; a
    new region needs a new press. The first release returns unless the image
    is one that cannot be decoded. *)
Theorem release_uses_the_draft (s : app) (x y x' y' : Z) :
  reachable s ->
  current_rect (state_of (on_release x y s)) = None /\
  (length (rectangles (state_of (on_release x y s))) <= length (rectangles s) + 1)%nat /\
  on_release x' y' (state_of (on_release x y s)) = Ok tt (state_of (on_release x y s)) /\
  (image s <> Some Truncated -> exists s', on_release x y s = Ok tt s').
Proof.
  intros Hreach. pose proof (refined_reachable_inv s Hreach) as I.
  destruct (current_rect s) as [cur|] eqn:Hcur.
  - destruct (release_cases x y s cur I Hcur) as (px & py & color & _ & _ & _ & Hrun).
    destruct (release_fields (canvasx px) (canvasy py) x y color cur s)
      as (_ & Mr & _ & _ & Mc & _).
    set (mid := release_store (canvasx px) (canvasy py) x y color cur s) in *.
    assert (Hlen : (length (rectangles mid) <= length (rectangles s) + 1)%nat).
    { rewrite Mr, length_app. simpl. lia. }
    destruct (image s) as [[a|]|]; rewrite Hrun; unfold state_of.
    + destruct (analysis_spec mid a) as ((_ & Fr & Fc & _) & _).
      assert (Hnone : current_rect
                (set_current_color_index
                   ((current_color_index s + 1) mod length colors)%nat (analysis a mid)) = None).
      { cbn [current_rect set_current_color_index]. congruence. }
      split; [exact Hnone|]. split.
      { cbn [rectangles set_current_color_index]. now rewrite Fr. }
      split; [now apply release_no_draft|]. intros _. eexists. reflexivity.
    + split; [exact Mc|]. split; [exact Hlen|].
      split; [now apply release_no_draft|]. intros H. now contradiction H.
    + split; [exact Mc|]. split; [exact Hlen|].
      split; [now apply release_no_draft|]. intros _. eexists. reflexivity.
  - rewrite release_no_draft by assumption. unfold state_of.
    split; [exact Hcur|]. split; [lia|].
    split; [now apply release_no_draft|]. intros _. now exists s.
Qed.

Lemma release_uses_the_draft_witness :
  current_rect (state_of (on_release 6 1 after_truncated_load)) = None /\
  (length (rectangles (state_of (on_release 6 1 after_truncated_load))) <=
   length (rectangles after_truncated_load) + 1)%nat /\
  on_release 9 9 (state_of (on_release 6 1 after_truncated_load)) =
    Ok tt (state_of (on_release 6 1 after_truncated_load)) /\
  (image after_truncated_load <> Some Truncated ->
   exists s', on_release 6 1 after_truncated_load = Ok tt s').
Proof.
  apply (release_uses_the_draft after_truncated_load 6 1 9 9).
  apply refined_run_reachable, reach_init.
Defined.

(** ** Markers at a release *)

Lemma enumerate_length {A : Type} (l : list A) : length (enumerate l) = length l.
Proof. unfold enumerate. rewrite length_combine, length_seq. apply Nat.min_id. Qed.

(** X4. With an image that decodes and a non-empty store, releasing the
    mouse on a draft returns and puts one new marker on the canvas for every
    region but the reference, the new region included, each classified in
    float64 against the mean of the first region: as many new markers as
    there were regions before. *)
Theorem release_marks_every_other_region (s : app) (a : ndarray) (r0 : rect)
        (rs : list rect) (cur : positive) (x y : Z) :
  reachable s ->
  image s = Some (Decoded a) -> rectangles s = r0 :: rs -> current_rect s = Some cur ->
  exists s',
    on_release x y s = Ok tt s' /\
    drawn_since s s' =
      map (region_marker a (spec_mean a r0)) (tl (enumerate (rectangles s'))) /\
    length (drawn_since s s') = length (rectangles s) /\
    Forall (fun it => shown it = Some MATCH \/ shown it = Some MISMATCH)
           (drawn_since s s').
Proof.
  intros Hreach Him Hrs Hcur. pose proof (refined_reachable_inv s Hreach) as I.
  destruct (release_cases x y s cur I Hcur) as (px & py & color & _ & _ & _ & Hrun).
  rewrite Him in Hrun.
  pose proof (release_store_inv px py x y color cur s I Hcur) as Imid.
  destruct (release_fields (canvasx px) (canvasy py) x y color cur s)
    as (_ & Mr & _).
  assert (Mdrawn : drawn (release_store (canvasx px) (canvasy py) x y color cur s) =
                   drawn s).
  { unfold release_store. now rewrite Hrs. }
  set (mid := release_store (canvasx px) (canvasy py) x y color cur s) in *.
  rewrite Hrs in Mr. rewrite <- app_comm_cons in Mr.
  destruct (analysis_spec mid a) as ((_ & Fr & _) & _).
  destruct (analysis_display mid a r0 _ Imid Mr) as (_ & _ & Hd).
  rewrite Mdrawn in Hd.
  eexists. split; [exact Hrun|].
  assert (Hsince : drawn_since s
            (set_current_color_index
               ((current_color_index s + 1) mod length colors)%nat (analysis a mid)) =
          map (region_marker a (spec_mean a r0)) (tl (enumerate (rectangles mid)))).
  { apply refined_drawn_since. exact Hd. }
  rewrite Hsince.
  cbn [rectangles set_current_color_index]. rewrite Fr.
  split; [reflexivity|]. split.
  - assert (Hlen : forall l : list (nat * rect), length (tl l) = (length l - 1)%nat)
      by (intros []; simpl; lia).
    rewrite length_map, Hlen, enumerate_length, Mr, Hrs. simpl.
    rewrite length_app. simpl. lia.
  - apply Forall_forall. intros it Hin. apply in_map_iff in Hin.
    destruct Hin as (ir & <- & _). rewrite shown_refined_marker.
    destruct (flt _ _); [now left | now right].
Qed.

Lemma release_marks_every_other_region_witness :
  exists s',
    on_release 6 1 (run (removelast (halves thirds_image)) init) = Ok tt s' /\
    drawn_since (run (removelast (halves thirds_image)) init) s' =
      map (region_marker [[[2]; [2]; [3]; [5]; [5]; [6]]]
             (spec_mean [[[2]; [2]; [3]; [5]; [5]; [6]]] (mkrect 0 0 3 1 "red" 2%positive)))
          (tl (enumerate (rectangles s'))) /\
    length (drawn_since (run (removelast (halves thirds_image)) init) s') =
      length (rectangles (run (removelast (halves thirds_image)) init)) /\
    Forall (fun it => shown it = Some MATCH \/ shown it = Some MISMATCH)
           (drawn_since (run (removelast (halves thirds_image)) init) s').
Proof.
  apply (release_marks_every_other_region (run (removelast (halves thirds_image)) init)
           [[[2]; [2]; [3]; [5]; [5]; [6]]] (mkrect 0 0 3 1 "red" 2%positive) []
           4%positive 6 1).
  - apply refined_run_reachable, reach_init.
  - reflexivity.
  - reflexivity.
  - reflexivity.
Defined.

(** ** The colour cycle *)

Lemma color_run_snoc (k n : nat) :
  color_run k (S n) =
  color_run k n ++ [nth ((k + n) mod length colors) colors ""%string].
Proof. unfold color_run. now rewrite seq_S, map_app. Qed.

(** One event that is not the load of a file that cannot be decoded keeps
    the image decodable and the colours of the stored regions a run of the
    cycle that ends just before the current colour. *)
Lemma cycle_step (s : app) (e : event) :
  reachable s -> image s <> Some Truncated ->
  e <> LoadImage (Opens Truncated) ->
  (exists k : nat,
     (k < length colors)%nat /\
     map r_color (rectangles s) = color_run k (length (rectangles s)) /\
     ((k + length (rectangles s)) mod length colors)%nat = current_color_index s) ->
  image (state_of (handle e s)) <> Some Truncated /\
  exists k : nat,
    (k < length colors)%nat /\
    map r_color (rectangles (state_of (handle e s))) =
      color_run k (length (rectangles (state_of (handle e s)))) /\
    ((k + length (rectangles (state_of (handle e s)))) mod length colors)%nat =
    current_color_index (state_of (handle e s)).
Proof.
  intros Hreach Him He IH. pose proof (refined_reachable_inv s Hreach) as I.
  assert (Hempty : forall s', rectangles s' = [] ->
            current_color_index s' = current_color_index s ->
            exists k : nat,
              (k < length colors)%nat /\
              map r_color (rectangles s') = color_run k (length (rectangles s')) /\
              ((k + length (rectangles s')) mod length colors)%nat =
              current_color_index s').
  { intros s' Hnil Hidx. exists (current_color_index s).
    rewrite Hnil, Hidx. split; [apply (inv_color s I)|].
    split; [reflexivity|]. change (length (@nil rect)) with 0%nat.
    rewrite Nat.add_0_r. apply Nat.mod_small, (inv_color s I). }
  assert (Hkeep : forall s', rectangles s' = rectangles s ->
            current_color_index s' = current_color_index s ->
            exists k : nat,
              (k < length colors)%nat /\
              map r_color (rectangles s') = color_run k (length (rectangles s')) /\
              ((k + length (rectangles s')) mod length colors)%nat =
              current_color_index s').
  { intros s' Hr Hidx. rewrite Hr, Hidx. exact IH. }
  assert (Hsnoc : forall s' color cur x1 y1 x2 y2,
            nth_error colors (current_color_index s) = Some color ->
            rectangles s' = rectangles s ++ [mkrect x1 y1 x2 y2 color cur] ->
            current_color_index s' = ((current_color_index s + 1) mod length colors)%nat ->
            exists k : nat,
              (k < length colors)%nat /\
              map r_color (rectangles s') = color_run k (length (rectangles s')) /\
              ((k + length (rectangles s')) mod length colors)%nat =
              current_color_index s').
  { intros s' color cur x1 y1 x2 y2 Hc Hrs Hidx.
    destruct IH as (k & Hk & Hcol & Hnext). exists k.
    split; [exact Hk|]. rewrite Hrs, Hidx, map_app, length_app.
    cbn [map length r_color].
    rewrite Nat.add_1_r, color_run_snoc, Hcol, Hnext. split.
    - f_equal. f_equal. symmetry. now apply nth_error_nth.
    - rewrite <- Hnext.
      replace (k + S (length (rectangles s)))%nat
        with ((k + length (rectangles s)) + 1)%nat by lia.
      rewrite Nat.Div0.add_mod_idemp_l. reflexivity. }
  destruct e as [f|x y|x y|x y|]; unfold handle.
  - destruct f as [| |[a|]].
    + split; [exact Him | exact IH].
    + split; [exact Him | exact IH].
    + rewrite load_image_decoded. unfold state_of.
      split; [discriminate | now apply Hempty].
    + now contradiction He.
  - destruct (color_in_range _ (inv_color s I)) as (color & Hc).
    destruct (press_run x y s color Hc) as (c & _ & Hrun). rewrite Hrun. unfold state_of.
    split; [exact Him | now apply Hkeep].
  - destruct (current_rect s) as [cur|] eqn:Hcur.
    + destruct (draft_is_ready s cur I Hcur) as (px & py & color & Hx & Hy & _).
      rewrite (drag_run x y s cur _ _ Hcur Hx Hy). unfold state_of.
      split; [exact Him | now apply Hkeep].
    + rewrite drag_no_draft by assumption. split; [exact Him | exact IH].
  - destruct (current_rect s) as [cur|] eqn:Hcur.
    + destruct (release_cases x y s cur I Hcur) as (px & py & color & _ & _ & Hc & Hrun).
      destruct (release_fields (canvasx px) (canvasy py) x y color cur s)
        as (Mi & Mr & _).
      set (mid := release_store (canvasx px) (canvasy py) x y color cur s) in *.
      destruct (image s) as [[a|]|] eqn:Himg; rewrite Hrun; unfold state_of.
      * destruct (analysis_spec mid a) as ((Fi & Fr & _) & _).
        split.
        -- cbn [image set_current_color_index]. rewrite Fi, Mi. discriminate.
        -- eapply Hsnoc; [exact Hc | | reflexivity].
           cbn [rectangles set_current_color_index]. rewrite Fr. exact Mr.
      * now contradiction Him.
      * split.
        -- cbn [image set_current_color_index set_results_frame]. rewrite Mi. discriminate.
        -- eapply Hsnoc; [exact Hc | | reflexivity]. exact Mr.
    + rewrite release_no_draft by assumption. split; [exact Him | exact IH].
  - rewrite clear_rectangles_run. unfold state_of.
    split; [exact Him | now apply Hempty].
Qed.

Lemma cycle_run (es : list event) :
  forall s : app,
    reachable s -> image s <> Some Truncated -> all_decode es ->
    (exists k : nat,
       (k < length colors)%nat /\
       map r_color (rectangles s) = color_run k (length (rectangles s)) /\
       ((k + length (rectangles s)) mod length colors)%nat = current_color_index s) ->
    exists k : nat,
      (k < length colors)%nat /\
      map r_color (rectangles (run es s)) = color_run k (length (rectangles (run es s))) /\
      ((k + length (rectangles (run es s))) mod length colors)%nat =
      current_color_index (run es s).
Proof.
  induction es as [|e es IH]; intros s Hreach Him Hes Hcyc; [exact Hcyc|].
  inversion Hes as [|? ? He Hes']; subst.
  destruct (cycle_step s e Hreach Him He Hcyc) as (Him' & Hcyc').
  cbn [run fold_left]. apply IH; try assumption. now constructor.
Qed.

(** After a file that cannot be decoded a release raises before line 123,
    and the next region gets the colour of the one before it. *)
Example cycle_after_truncated_load :
  map r_color
      (rectangles (run [ButtonRelease 6 1; ButtonPress 0 0; ButtonRelease 1 1]
                       after_truncated_load)) = ["red"; "blue"; "blue"]%string.
Proof. reflexivity. Qed.

(** X7. As long as no file is loaded that opens and cannot be decoded, the
    colours of the stored regions follow the cycle red, blue, green, yellow,
    purple from one position to the next, starting at some position k (a
    clear or an image load does not rewind the cycle), and the colour of the
    next region is the one after the last. *)
Theorem colors_follow_cycle_while_images_decode (es : list event) :
  all_decode es ->
  exists k : nat,
    (k < 5)%nat /\
    (forall (i : nat) (r : rect),
       nth_error (rectangles (run es init)) i = Some r ->
       nth_error colors ((k + i) mod 5) = Some (r_color r)) /\
    ((k + length (rectangles (run es init))) mod 5)%nat =
    current_color_index (run es init).
Proof.
  intros Hes.
  destruct (cycle_run es init reach_init) as (k & Hk & Hcol & Hnext).
  { discriminate. }
  { exact Hes. }
  { exists 0%nat. repeat split. simpl. lia. }
  exists k. split; [exact Hk|]. split; [|exact Hnext].
  intros i r Hi.
  assert (Hlt : (i < length (rectangles (run es init)))%nat)
    by (apply nth_error_Some; congruence).
  apply (map_nth_error r_color) in Hi. rewrite Hcol in Hi.
  unfold color_run in Hi. rewrite nth_error_map, nth_error_seq in Hi.
  apply Nat.ltb_lt in Hlt. rewrite Hlt in Hi. cbn [option_map Nat.add] in Hi.
  injection Hi as Hi. rewrite <- Hi.
  apply (nth_error_nth' colors ""%string). apply Nat.mod_upper_bound. discriminate.
Qed.

Lemma colors_follow_cycle_while_images_decode_witness :
  exists k : nat,
    (k < 5)%nat /\
    (forall (i : nat) (r : rect),
       nth_error (rectangles (run (halves thirds_image) init)) i = Some r ->
       nth_error colors ((k + i) mod 5) = Some (r_color r)) /\
    ((k + length (rectangles (run (halves thirds_image) init))) mod 5)%nat =
    current_color_index (run (halves thirds_image) init).
Proof.
  apply (colors_follow_cycle_while_images_decode (halves thirds_image)).
  repeat constructor; discriminate.
Defined.

End RefinedFacts.
